(** * Expense tracker: the Insights panel, the page shell and user resolution

    A shallow embedding of
      - [src/app/components/Insights.tsx]  (the [Insights] component:
        [loadInsights], [handleActionClick] and the part of the rendered
        tree that depends on the component's state),
      - the [checkUser] helper that follows it in the same file,
      - [src/app/page.tsx]  ([HomePage]).

    The component's four [useState] cells become one record, [Panel].  The
    handlers are written in a state-and-exception monad so that
    [try]/[catch]/[finally] and the React setters read as they do in the
    source.  An [await] splits a handler in two: the part that runs when the
    handler is called, and the part that runs when the awaited call has
    settled (its outcome is an argument of that second part).  The
    [console.error] calls of the two [catch] blocks write to the console
    only and are left out. *)

From Stdlib Require Import String List Bool Arith ZArith Lia.
Import ListNotations.
Open Scope string_scope.

Set Implicit Arguments.

(** ** JavaScript values and control *)

Module Js.

(** What a [throw] or a rejected promise carries. *)
Inductive error : Type :=
| TypeError (msg : string)
| Rejected (reason : string).

(** Outcome of running a piece of code: a value, or a thrown error. *)
Inductive completion (A : Type) : Type :=
| Normal (a : A)
| Throw (e : error).
Arguments Normal {A} a.
Arguments Throw {A} e.

(** Code over a mutable store [S].  A throw keeps the writes made so far. *)
Definition M (S A : Type) : Type := S -> completion A * S.

Definition ret {S A} (a : A) : M S A := fun s => (Normal a, s).

Definition bind {S A B} (m : M S A) (k : A -> M S B) : M S B :=
  fun s =>
    match m s with
    | (Normal a, s') => k a s'
    | (Throw e, s') => (Throw e, s')
    end.

Definition throw {S A} (e : error) : M S A := fun s => (Throw e, s).

(** [await p] where the promise [p] has settled with [c]. *)
Definition settled {S A} (c : completion A) : M S A := fun s => (c, s).

Definition modify {S} (f : S -> S) : M S unit := fun s => (Normal tt, f s).

(** [try { body } catch (e) { handler e }] *)
Definition try_catch {S A} (body : M S A) (handler : error -> M S A) : M S A :=
  fun s =>
    match body s with
    | (Normal a, s') => (Normal a, s')
    | (Throw e, s') => handler e s'
    end.

(** [try { body } finally { fin }]: [fin] always runs; its own throw wins. *)
Definition try_finally {S A} (body : M S A) (fin : M S unit) : M S A :=
  fun s =>
    match body s with
    | (c, s') =>
        match fin s' with
        | (Normal _, s'') => (c, s'')
        | (Throw e, s'') => (Throw e, s'')
        end
    end.

(** Truthiness of an optional string: [undefined] and [''] are falsy. *)
Definition truthy (v : option string) : bool :=
  match v with
  | Some s => negb (s =? "")
  | None => false
  end.

(** A value inside a template literal. *)
Definition to_string (v : option string) : string :=
  match v with
  | Some s => s
  | None => "undefined"
  end.

(** The same for a [string | null] field. *)
Definition nullable_to_string (v : option string) : string :=
  match v with
  | Some s => s
  | None => "null"
  end.

End Js.

Import Js.

Declare Scope js_scope.
Delimit Scope js_scope with js.
Notation "x <- m ;; k" := (bind m (fun x => k))
  (at level 61, m at next level, right associativity) : js_scope.
Notation "m ;; k" := (bind m (fun _ => k))
  (at level 61, right associativity) : js_scope.
Open Scope js_scope.

(** ** Data model (Insights.tsx, lines 7-20) *)

Inductive InsightType : Type := warning | info | success | tip.

(** A [Date] is kept as its time value (milliseconds since the epoch). *)
Definition Date : Type := Z.

Record InsightData : Type := mkInsight {
  id : string;
  type : InsightType;
  title : string;
  message : string;
  action : option string;
  confidence : option Z
}.

Record AIAnswer : Type := mkAnswer {
  insightId : string;
  answer : string;
  isLoading : bool
}.

(** ** The Insights component *)

Module Insights.

(** The four state cells of the component (lines 23-26). *)
Record Panel : Type := mkPanel {
  insights : list InsightData;
  loading : bool;
  lastUpdated : option Date;
  aiAnswers : list AIAnswer
}.

(** State on mount: the [useState] initial values. *)
Definition initial : Panel :=
  {| insights := []; loading := true; lastUpdated := None; aiAnswers := [] |}.

(** *** Setters *)

Definition setInsights (v : list InsightData) : M Panel unit :=
  modify (fun p => {| insights := v; loading := loading p;
                      lastUpdated := lastUpdated p; aiAnswers := aiAnswers p |}).

Definition setIsLoading (v : bool) : M Panel unit :=
  modify (fun p => {| insights := insights p; loading := v;
                      lastUpdated := lastUpdated p; aiAnswers := aiAnswers p |}).

Definition setLastUpdated (v : option Date) : M Panel unit :=
  modify (fun p => {| insights := insights p; loading := loading p;
                      lastUpdated := v; aiAnswers := aiAnswers p |}).

(** [setAiAnswers((prev) => f prev)] *)
Definition setAiAnswers (f : list AIAnswer -> list AIAnswer) : M Panel unit :=
  modify (fun p => {| insights := insights p; loading := loading p;
                      lastUpdated := lastUpdated p; aiAnswers := f (aiAnswers p) |}).

(** *** loadInsights (lines 28-50) *)

(** The record put in place of the list when the fetch fails (lines 38-45). *)
Definition fallbackInsight : InsightData :=
  {| id := "fallback-1";
     type := info;
     title := "AI Temporarily Unavailable";
     message := "We're working to restore AI insights. Please check back soon.";
     action := Some "Try again later";
     confidence := None |}.

(** Up to the [await]: line 29. *)
Definition loadInsights_start : M Panel unit := setIsLoading true.

(** From the [await] on: [fetched] is how [getAIInsights()] settled and
    [now] is what [new Date()] reads. *)
Definition loadInsights_resume
    (fetched : completion (list InsightData)) (now : Date) : M Panel unit :=
  try_finally
    (try_catch
       (newInsights <- settled fetched ;;
        setInsights newInsights ;;
        setLastUpdated (Some now))
       (fun _error => setInsights [fallbackInsight]))
    (setIsLoading false).

Definition loadInsights
    (fetched : completion (list InsightData)) (now : Date) : M Panel unit :=
  loadInsights_start ;; loadInsights_resume fetched now.

(** *** handleActionClick (lines 52-100) *)

Definition hasId (i : string) (a : AIAnswer) : bool := insightId a =? i.

Definition pendingAnswer (i : string) : AIAnswer :=
  {| insightId := i; answer := ""; isLoading := true |}.

(** [{ ...a, answer, isLoading: false }] *)
Definition resolveAnswer (text : string) (a : AIAnswer) : AIAnswer :=
  {| insightId := insightId a; answer := text; isLoading := false |}.

Definition apology : string :=
  "Sorry, I was unable to generate a detailed answer. Please try again.".

(** Line 75. *)
Definition question (insight : InsightData) : string :=
  title insight ++ ": " ++ to_string (action insight).

(** Up to the [await] of line 78.  [shown] is the [aiAnswers] the handler
    closed over, that is, the list of the render the click happened on.
    The result is the question sent to [generateInsightAnswer], or [None]
    when the handler returned without calling it. *)
Definition handleActionClick_start
    (shown : list AIAnswer) (insight : InsightData) : M Panel (option string) :=
  if negb (truthy (action insight)) then ret None
  else
    match find (hasId (id insight)) shown with
    | Some _existingAnswer =>
        setAiAnswers (fun prev => filter (fun a => negb (hasId (id insight) a)) prev) ;;
        ret None
    | None =>
        setAiAnswers (fun prev => (prev ++ [pendingAnswer (id insight)])%list) ;;
        ret (Some (question insight))
    end.

(** From the [await] on: [generated] is how [generateInsightAnswer]
    settled (lines 78-99). *)
Definition handleActionClick_resume
    (insight : InsightData) (generated : completion string) : M Panel unit :=
  try_catch
    (answer <- settled generated ;;
     setAiAnswers (fun prev =>
       map (fun a => if hasId (id insight) a then resolveAnswer answer a else a) prev))
    (fun _error =>
     setAiAnswers (fun prev =>
       map (fun a => if hasId (id insight) a then resolveAnswer apology a else a) prev)).

(** *** The rendered tree (lines 148-212)

    Only what depends on the state is kept: class names and icons are
    presentation and are left out. *)

Inductive AnswerView : Type :=
| Spinner
| AnswerText (text : string).

Record Card : Type := mkCard {
  key : string;
  heading : string;
  body : string;
  button : option string;
  answerPanel : option AnswerView
}.

Inductive Content : Type :=
| Placeholders (keys : list nat)
| Cards (cards : list Card).

Record View : Type := mkView {
  content : Content;
  footer : option Date
}.

(** Lines 175-182: the button exists only for a truthy [action]. *)
Definition renderButton (insight : InsightData) : option string :=
  if truthy (action insight) then Some (to_string (action insight) ++ " →")
  else None.

(** Lines 183-198: the first entry found for the insight decides. *)
Definition renderAnswer (answers : list AIAnswer) (insight : InsightData)
  : option AnswerView :=
  match find (hasId (id insight)) answers with
  | Some a => Some (if isLoading a then Spinner else AnswerText (answer a))
  | None => None
  end.

Definition renderCard (answers : list AIAnswer) (insight : InsightData) : Card :=
  {| key := id insight;
     heading := title insight;
     body := message insight;
     button := renderButton insight;
     answerPanel := renderAnswer answers insight |}.

Definition render (p : Panel) : View :=
  {| content :=
       if loading p then Placeholders [1; 2; 3]
       else Cards (map (renderCard (aiAnswers p)) (insights p));
     footer := lastUpdated p |}.

(** *** The component as a transition system

    Everything that can happen to a mounted panel.  The click handler tests
    the [aiAnswers] of the render it belongs to (line 56) and writes through
    [prev] (lines 59 and 64), so a click is determined by the insight and by
    the list its handler closed over:
      - [ClickedOn shown insight] is a click that reaches the handler of a
        render whose list was [shown], whatever the answers are by now (two
        clicks dispatched before the component has rendered again reach the
        same handler, with the same [shown]);
      - [Clicked insight] is the click that reaches the handler of a render
        of the answers as they are now: [ClickedOn] with the current list. *)
Inductive Event : Type :=
| LoadStarted
| LoadSettled (fetched : completion (list InsightData)) (now : Date)
| Clicked (insight : InsightData)
| AnswerSettled (insight : InsightData) (generated : completion string)
| ClickedOn (shown : list AIAnswer) (insight : InsightData).

Definition handle (e : Event) (p : Panel) : completion unit * Panel :=
  match e with
  | LoadStarted => loadInsights_start p
  | LoadSettled fetched now => loadInsights_resume fetched now p
  | Clicked insight =>
      (_ <- handleActionClick_start (aiAnswers p) insight ;; ret tt) p
  | AnswerSettled insight generated => handleActionClick_resume insight generated p
  | ClickedOn shown insight =>
      (_ <- handleActionClick_start shown insight ;; ret tt) p
  end.

Definition step (e : Event) (p : Panel) : Panel := snd (handle e p).

Fixpoint run (es : list Event) (p : Panel) : Panel :=
  match es with
  | [] => p
  | e :: es' => run es' (step e p)
  end.

(** The question a click sends to the answer generator, if any. *)
Definition asked (insight : InsightData) (p : Panel) : option string :=
  match fst (handleActionClick_start (aiAnswers p) insight p) with
  | Normal q => q
  | Throw _ => None
  end.

(** The entries held for one insight id. *)
Definition entries (i : string) (l : list AIAnswer) : list AIAnswer :=
  filter (hasId i) l.

(** At most one entry per insight id. *)
Definition AtMostOne (l : list AIAnswer) : Prop :=
  forall i, length (entries i l) <= 1.

(** An event that is a click on the insight with id [i]. *)
Definition clicks (i : string) (e : Event) : bool :=
  match e with
  | Clicked insight | ClickedOn _ insight => id insight =? i
  | _ => false
  end.

(** The question a click sends, if any, when its handler closed over
    [shown]. *)
Definition askedOn (shown : list AIAnswer) (insight : InsightData) (p : Panel)
  : option string :=
  match fst (handleActionClick_start shown insight p) with
  | Normal q => q
  | Throw _ => None
  end.

(** The list a click's handler closed over shows an entry for the clicked
    insight whenever the answers hold one: the render it belongs to is not
    behind on that insight. *)
Definition upToDate (e : Event) (p : Panel) : Prop :=
  match e with
  | ClickedOn shown insight =>
      find (hasId (id insight)) shown = None ->
      find (hasId (id insight)) (aiAnswers p) = None
  | _ => True
  end.

(** Every click of the history is up to date when it happens. *)
Fixpoint upToDateRun (es : list Event) (p : Panel) : Prop :=
  match es with
  | [] => True
  | e :: es' => upToDate e p /\ upToDateRun es' (step e p)
  end.

End Insights.

(** ** The identity provider

    [currentUser()] of the authentication library: the signed-in user, or
    [null].  The session counts the look-ups made on it. *)

Module Clerk.

Record EmailAddress : Type := mkEmail { emailAddress : string }.

Record User : Type := mkUser {
  id : string;
  firstName : option string;
  lastName : option string;
  imageUrl : string;
  emailAddresses : list EmailAddress
}.

Record Session : Type := mkSession {
  signedIn : option User;
  lookups : nat
}.

Definition currentUser : M Session (option User) :=
  fun s => (Normal (signedIn s),
            {| signedIn := signedIn s; lookups := S (lookups s) |}).

End Clerk.

(** ** checkUser (the helper that follows the component)

    The data-access layer ([./db]) is imported, not defined, by this code,
    so the two calls made on it are parameters of the section: any store
    [Db] with a look-up by [clerkUserId] and a [create]. *)

Module CheckUser.

Record UserCreateInput : Type := mkInput {
  clerkUserId : string;
  name : string;
  imageUrl : string;
  email : string
}.

Section WithDb.

Variable Db : Type.
Variable DbUser : Type.
(** [db.user.findUnique({ where: { clerkUserId } })] *)
Variable findUnique : string -> M Db (option DbUser).
(** [db.user.create({ data })] *)
Variable create : UserCreateInput -> M Db DbUser.

Record World : Type := mkWorld {
  session : Clerk.Session;
  db : Db
}.

Definition onSession {A} (m : M Clerk.Session A) : M World A :=
  fun w => match m (session w) with
           | (c, s') => (c, {| session := s'; db := db w |})
           end.

Definition onDb {A} (m : M Db A) : M World A :=
  fun w => match m (db w) with
           | (c, d') => (c, {| session := session w; db := d' |})
           end.

(** [user.emailAddresses[0].emailAddress]: indexing past the end yields
    [undefined], and reading a property of [undefined] throws. *)
Definition firstEmail (user : Clerk.User) : M World string :=
  match nth_error (Clerk.emailAddresses user) 0 with
  | Some e => ret (Clerk.emailAddress e)
  | None =>
      throw (TypeError
               "Cannot read properties of undefined (reading 'emailAddress')")
  end.

Definition checkUser : M World (option DbUser) :=
  user <- onSession Clerk.currentUser ;;
  match user with
  | None => ret None
  | Some user =>
      loggedInUser <- onDb (findUnique (Clerk.id user)) ;;
      match loggedInUser with
      | None =>
          email <- firstEmail user ;;
          newUser <- onDb (create
            {| clerkUserId := Clerk.id user;
               name := nullable_to_string (Clerk.firstName user) ++ " "
                       ++ nullable_to_string (Clerk.lastName user);
               imageUrl := Clerk.imageUrl user;
               email := email |}) ;;
          ret (Some newUser)
      | Some found => ret (Some found)
      end
  end.

End WithDb.

(** A store to run [checkUser] on: the rows created so far. *)
Definition Rows : Type := list UserCreateInput.

Definition rowsFindUnique (k : string) : M Rows (option UserCreateInput) :=
  fun rows => (Normal (find (fun r => clerkUserId r =? k) rows), rows).

Definition rowsCreate (data : UserCreateInput) : M Rows UserCreateInput :=
  fun rows => (Normal data, (rows ++ [data])%list).

End CheckUser.

(** ** The page shell (page.tsx) *)

Module Page.

(** A React element: a component of the application, a host element with
    its class name and children, or text. *)
#[warnings="-register-all"]
Inductive Element : Type :=
| Component (name : string)
| Host (tag : string) (className : option string) (children : list Element)
| Text (s : string).

(** Does the tree contain the component called [name]? *)
Fixpoint mounts (name : string) (e : Element) : bool :=
  match e with
  | Component n => n =? name
  | Host _ _ children =>
      (fix any (l : list Element) : bool :=
         match l with
         | [] => false
         | c :: l' => mounts name c || any l'
         end) children
  | Text _ => false
  end.

Definition guestView : Element := Component "Guest".

Definition homeView : Element :=
  Host "div" None [Host "h1" (Some "bg-red-400") [Text "Home Page"]].

(** Lines 6-18. *)
Definition HomePage : M Clerk.Session Element :=
  user <- Clerk.currentUser ;;
  match user with
  | None => ret guestView
  | Some _ => ret homeView
  end.

End Page.

Import Insights.

(** ** Vocabulary of the statements *)

(** [p'] differs from [p] in its answers at most. *)
Definition onlyAnswersChange (p p' : Panel) : Prop :=
  insights p' = insights p /\ loading p' = loading p /\
  lastUpdated p' = lastUpdated p.

(** The panel [p] with [l] for its answers. *)
Definition withAnswers (p : Panel) (l : list AIAnswer) : Panel :=
  {| insights := insights p; loading := loading p;
     lastUpdated := lastUpdated p; aiAnswers := l |}.

(** No event of [es] is a click on the insight with id [i]. *)
Definition noClickOn (i : string) (es : list Event) : bool :=
  forallb (fun e => negb (clicks i e)) es.

(** The card of the spec's scenario, and a card without an action. *)
Definition saveMore : InsightData :=
  {| id := "1"; type := tip; title := "Save more"; message := "...";
     action := Some "See how"; confidence := None |}.

Definition plainNote : InsightData :=
  {| id := "2"; type := info; title := "On track"; message := "...";
     action := None; confidence := None |}.

(** ** Presentation by category (Insights.tsx, lines 106-130)

    Both functions take the category as a string and compare it with [===],
    [default] taking every other string. *)

Definition warningStyles : string :=
  "bg-gradient-to-r from-red-50 to-pink-50 dark:from-red-900/20 dark:to-pink-900/20 border-l-red-500".

Definition successStyles : string :=
  "bg-gradient-to-r from-green-50 to-emerald-50 dark:from-green-900/20 dark:to-emerald-900/20 border-l-green-500".

Definition tipStyles : string :=
  "bg-gradient-to-r from-blue-50 to-indigo-50 dark:from-blue-900/20 dark:to-indigo-900/20 border-l-blue-500".

Definition defaultStyles : string :=
  "bg-gradient-to-r from-gray-50 to-slate-50 dark:from-gray-900/20 dark:to-slate-900/20 border-l-gray-500".

Definition getTypeStyles (type : string) : string :=
  if type =? "warning" then warningStyles
  else if type =? "success" then successStyles
  else if type =? "tip" then tipStyles
  else defaultStyles.

Definition getTypeIcon (type : string) : string :=
  if type =? "warning" then "⚠️"
  else if type =? "success" then "✅"
  else if type =? "tip" then "💡"
  else "ℹ️".

(** The string a category is at run time: the literals of the union type
    of line 9. *)
Definition typeName (t : InsightType) : string :=
  match t with
  | warning => "warning"
  | info => "info"
  | success => "success"
  | tip => "tip"
  end.

(** ** Kinds of events *)

(** The start or the completion of a load. *)
Definition loads (e : Event) : bool :=
  match e with
  | LoadStarted | LoadSettled _ _ => true
  | _ => false
  end.

(** The completion of a load, with either outcome. *)
Definition settlesLoad (e : Event) : bool :=
  match e with
  | LoadSettled _ _ => true
  | _ => false
  end.

(** The completion of a load whose fetch succeeded. *)
Definition succeedsLoad (e : Event) : bool :=
  match e with
  | LoadSettled (Normal _) _ => true
  | _ => false
  end.

(** A click on, or the completion of a generation call for, an insight with
    id [i]. *)
Definition touches (i : string) (e : Event) : bool :=
  match e with
  | Clicked insight | AnswerSettled insight _ | ClickedOn _ insight =>
      id insight =? i
  | _ => false
  end.

Definition noneOf (test : Event -> bool) (es : list Event) : bool :=
  forallb (fun e => negb (test e)) es.

(** The text a settled generation call leaves in the entry. *)
Definition shownText (generated : completion string) : string :=
  match generated with
  | Normal text => text
  | Throw _ => apology
  end.

(** An entry that is still loading has no text yet. *)
Definition PendingEmpty (l : list AIAnswer) : Prop :=
  forall a, In a l -> isLoading a = true -> answer a = "".

(** * Properties *)

(** ** Lists of answers: [find], [filter] and [map] by insight id *)

Section AnswerLists.

Variable i : string.

Lemma hasId_pending : hasId i (pendingAnswer i) = true.
Proof. unfold hasId; simpl. apply String.eqb_refl. Qed.

Lemma hasId_resolve text a : hasId i (resolveAnswer text a) = hasId i a.
Proof. reflexivity. Qed.

Lemma find_none_entries l : find (hasId i) l = None <-> entries i l = [].
Proof.
  unfold entries. induction l as [|a l IH]; simpl.
  - tauto.
  - destruct (hasId i a); [split; discriminate | exact IH].
Qed.

Lemma find_some_entries l a : find (hasId i) l = Some a -> entries i l <> [].
Proof.
  intros Hf He. apply find_none_entries in He. congruence.
Qed.

(** Removing the entries of [i] leaves none of them. *)
Lemma entries_remove l :
  entries i (filter (fun a => negb (hasId i a)) l) = [].
Proof.
  unfold entries. induction l as [|a l IH]; simpl; [reflexivity|].
  destruct (hasId i a) eqn:E; simpl; [exact IH|]. now rewrite E.
Qed.

(** Removing the entries of [i] from a list that has none changes nothing. *)
Lemma remove_absent l :
  entries i l = [] -> filter (fun a => negb (hasId i a)) l = l.
Proof.
  unfold entries. induction l as [|a l IH]; simpl; [reflexivity|].
  destruct (hasId i a); simpl; [discriminate|]. intros H. now rewrite IH.
Qed.

(** Updating the entries of [i] in a list that has none changes nothing. *)
Lemma update_absent (g : AIAnswer -> AIAnswer) l :
  entries i l = [] -> map (fun a => if hasId i a then g a else a) l = l.
Proof.
  unfold entries. induction l as [|a l IH]; simpl; [reflexivity|].
  destruct (hasId i a); [discriminate|]. intros H. now rewrite IH.
Qed.

(** An entry of [i] appended to a list without one is the one found. *)
Lemma find_appended l b :
  find (hasId i) l = None -> hasId i b = true ->
  find (hasId i) (l ++ [b]) = Some b.
Proof.
  intros Hf Hb. induction l as [|a l IH]; simpl.
  - now rewrite Hb.
  - simpl in Hf. destruct (hasId i a); [discriminate|]. now apply IH.
Qed.

Lemma entries_app l1 l2 : entries i (l1 ++ l2) = (entries i l1 ++ entries i l2)%list.
Proof. unfold entries. apply filter_app. Qed.

End AnswerLists.

(** An update by id keeps every entry's id, so it keeps the entries of any
    id in place. *)
Lemma entries_update i j text l :
  entries j (map (fun a => if hasId i a then resolveAnswer text a else a) l)
  = map (fun a => if hasId i a then resolveAnswer text a else a) (entries j l).
Proof.
  unfold entries. induction l as [|a l IH]; simpl; [reflexivity|].
  replace (hasId j (if hasId i a then resolveAnswer text a else a))
    with (hasId j a) by (destruct (hasId i a); reflexivity).
  destruct (hasId j a); simpl; now rewrite IH.
Qed.

(** Entries of another id are untouched by an update of [i]. *)
Lemma entries_update_other i j text l :
  j <> i ->
  entries j (map (fun a => if hasId i a then resolveAnswer text a else a) l)
  = entries j l.
Proof.
  intros Hne. unfold entries. induction l as [|a l IH]; simpl; [reflexivity|].
  destruct (hasId i a) eqn:Ei.
  - unfold hasId in *. simpl. apply String.eqb_eq in Ei.
    destruct (insightId a =? j) eqn:Ej.
    + apply String.eqb_eq in Ej. congruence.
    + exact IH.
  - destruct (hasId j a); simpl; now rewrite IH.
Qed.

Lemma entries_remove_other i j l :
  j <> i -> entries j (filter (fun a => negb (hasId i a)) l) = entries j l.
Proof.
  intros Hne. unfold entries. induction l as [|a l IH]; simpl; [reflexivity|].
  destruct (hasId i a) eqn:Ei; simpl.
  - unfold hasId in *. apply String.eqb_eq in Ei.
    destruct (insightId a =? j) eqn:Ej.
    + apply String.eqb_eq in Ej. congruence.
    + exact IH.
  - destruct (hasId j a); simpl; now rewrite IH.
Qed.

Lemma entries_pending_other i j : j <> i -> entries j [pendingAnswer i] = [].
Proof.
  intros Hne. unfold entries, hasId; simpl.
  destruct (i =? j) eqn:E; [|reflexivity].
  apply String.eqb_eq in E. congruence.
Qed.

(** ** The three updaters keep ids unique *)

Lemma AtMostOne_remove i l :
  AtMostOne l -> AtMostOne (filter (fun a => negb (hasId i a)) l).
Proof.
  intros H j. destruct (String.eqb_spec j i) as [->|Hne].
  - rewrite entries_remove. simpl. lia.
  - rewrite entries_remove_other by assumption. apply H.
Qed.

Lemma AtMostOne_update i text l :
  AtMostOne l ->
  AtMostOne (map (fun a => if hasId i a then resolveAnswer text a else a) l).
Proof.
  intros H j. rewrite entries_update, length_map. apply H.
Qed.

Lemma AtMostOne_insert i l :
  find (hasId i) l = None -> AtMostOne l -> AtMostOne (l ++ [pendingAnswer i]).
Proof.
  intros Hf H j. rewrite entries_app, length_app.
  destruct (String.eqb_spec j i) as [->|Hne].
  - apply find_none_entries in Hf. rewrite Hf. unfold entries. simpl.
    rewrite hasId_pending. simpl. lia.
  - rewrite entries_pending_other by assumption. simpl. specialize (H j). lia.
Qed.

(** ** What each part of [handleActionClick] does to the panel *)

Lemma withAnswers_same p : withAnswers p (aiAnswers p) = p.
Proof. now destruct p. Qed.

Lemma withAnswers_twice p l l' :
  withAnswers (withAnswers p l) l' = withAnswers p l'.
Proof. reflexivity. Qed.

Lemma find_first_entry i l : find (hasId i) l = hd_error (entries i l).
Proof.
  unfold entries. induction l as [|a l IH]; simpl; [reflexivity|].
  now destruct (hasId i a).
Qed.

Lemma click_falsy shown insight p :
  truthy (action insight) = false ->
  handleActionClick_start shown insight p = (Normal None, p).
Proof. intros H. unfold handleActionClick_start. now rewrite H. Qed.

Lemma click_insert shown insight p :
  truthy (action insight) = true ->
  find (hasId (id insight)) shown = None ->
  handleActionClick_start shown insight p
  = (Normal (Some (question insight)),
     withAnswers p (aiAnswers p ++ [pendingAnswer (id insight)])).
Proof.
  intros Ht Hf. unfold handleActionClick_start. now rewrite Ht, Hf.
Qed.

Lemma click_remove shown insight p a :
  truthy (action insight) = true ->
  find (hasId (id insight)) shown = Some a ->
  handleActionClick_start shown insight p
  = (Normal None,
     withAnswers p (filter (fun a => negb (hasId (id insight) a)) (aiAnswers p))).
Proof.
  intros Ht Hf. unfold handleActionClick_start. now rewrite Ht, Hf.
Qed.

Lemma settled_ok insight text p :
  handleActionClick_resume insight (Normal text) p
  = (Normal tt,
     withAnswers p
       (map (fun a => if hasId (id insight) a then resolveAnswer text a else a)
            (aiAnswers p))).
Proof. reflexivity. Qed.

Lemma settled_failed insight e p :
  handleActionClick_resume insight (Throw e) p
  = (Normal tt,
     withAnswers p
       (map (fun a => if hasId (id insight) a then resolveAnswer apology a else a)
            (aiAnswers p))).
Proof. reflexivity. Qed.

(** Either way the completion handler is an update by id with some text. *)
Lemma settled_update insight generated p :
  handleActionClick_resume insight generated p
  = (Normal tt,
     withAnswers p
       (map (fun a => if hasId (id insight) a
                      then resolveAnswer
                             (match generated with Normal t => t | Throw _ => apology end) a
                      else a)
            (aiAnswers p))).
Proof. destruct generated; reflexivity. Qed.

Lemma step_click_falsy insight p :
  truthy (action insight) = false -> step (Clicked insight) p = p.
Proof.
  intros H. unfold step, handle, bind. now rewrite click_falsy.
Qed.

Lemma step_click_insert insight p :
  truthy (action insight) = true ->
  find (hasId (id insight)) (aiAnswers p) = None ->
  step (Clicked insight) p
  = withAnswers p (aiAnswers p ++ [pendingAnswer (id insight)]).
Proof.
  intros Ht Hf. unfold step, handle, bind. now rewrite click_insert.
Qed.

Lemma step_click_remove insight p a :
  truthy (action insight) = true ->
  find (hasId (id insight)) (aiAnswers p) = Some a ->
  step (Clicked insight) p
  = withAnswers p (filter (fun a => negb (hasId (id insight) a)) (aiAnswers p)).
Proof.
  intros Ht Hf. unfold step, handle, bind. now rewrite click_remove with (a := a).
Qed.

Lemma step_on_falsy shown insight p :
  truthy (action insight) = false -> step (ClickedOn shown insight) p = p.
Proof.
  intros H. unfold step, handle, bind. now rewrite click_falsy.
Qed.

Lemma step_on_insert shown insight p :
  truthy (action insight) = true ->
  find (hasId (id insight)) shown = None ->
  step (ClickedOn shown insight) p
  = withAnswers p (aiAnswers p ++ [pendingAnswer (id insight)]).
Proof.
  intros Ht Hf. unfold step, handle, bind. now rewrite click_insert.
Qed.

Lemma step_on_remove shown insight p a :
  truthy (action insight) = true ->
  find (hasId (id insight)) shown = Some a ->
  step (ClickedOn shown insight) p
  = withAnswers p (filter (fun a => negb (hasId (id insight) a)) (aiAnswers p)).
Proof.
  intros Ht Hf. unfold step, handle, bind. now rewrite click_remove with (a := a).
Qed.

Lemma step_settled insight generated p :
  step (AnswerSettled insight generated) p
  = withAnswers p
      (map (fun a => if hasId (id insight) a
                     then resolveAnswer
                            (match generated with Normal t => t | Throw _ => apology end) a
                     else a)
           (aiAnswers p)).
Proof. unfold step, handle. now rewrite settled_update. Qed.

Lemma truthy_some v : truthy v = true -> exists label, v = Some label /\ label <> "".
Proof.
  destruct v as [s|]; simpl; [|discriminate]. intros H. exists s. split; [reflexivity|].
  intros ->. discriminate.
Qed.

(** An update by id resolves every entry of that id, in place. *)
Lemma update_resolves i text l a :
  In a (map (fun a => if hasId i a then resolveAnswer text a else a) l) ->
  insightId a = i -> answer a = text /\ isLoading a = false.
Proof.
  intros Hin Hid. apply in_map_iff in Hin. destruct Hin as [b [Hb _]].
  destruct (hasId i b) eqn:E; subst a.
  - split; reflexivity.
  - unfold hasId in E. rewrite Hid, String.eqb_refl in E. discriminate.
Qed.

Lemma update_keeps_ids i text l :
  map insightId (map (fun a => if hasId i a then resolveAnswer text a else a) l)
  = map insightId l.
Proof.
  rewrite map_map. apply map_ext. intros a. now destruct (hasId i a).
Qed.

(** The spec's scenario, run on the model. *)
Example scenario_click_then_answer :
  let p := snd (loadInsights (Normal [saveMore]) 1000%Z initial) in
  asked saveMore p = Some "Save more: See how" /\
  renderAnswer (aiAnswers (run [Clicked saveMore] p)) saveMore = Some Spinner /\
  renderAnswer
    (aiAnswers (run [Clicked saveMore;
                     AnswerSettled saveMore (Normal "Try the 50/30/20 rule.")] p))
    saveMore = Some (AnswerText "Try the 50/30/20 rule.") /\
  renderAnswer
    (aiAnswers (run [Clicked saveMore;
                     AnswerSettled saveMore (Normal "Try the 50/30/20 rule.");
                     Clicked saveMore] p))
    saveMore = None.
Proof. repeat split. Qed.

(** ** Clicking an insight that has no action *)

(** C8.  For an insight whose action label is missing or empty, the click
    handler does nothing: it returns without sending a question to the
    answer generator and leaves the whole panel, its answers included, as it
    was, whatever list of answers the handler closed over. *)
Theorem click_without_action_is_noop shown insight p :
  truthy (action insight) = false ->
  handleActionClick_start shown insight p = (Normal None, p) /\
  step (Clicked insight) p = p /\
  asked insight p = None /\
  aiAnswers (step (Clicked insight) p) = aiAnswers p.
Proof.
  intros H. split; [now apply click_falsy|].
  rewrite step_click_falsy by assumption.
  unfold asked. rewrite click_falsy by assumption. simpl. auto.
Qed.

Lemma click_without_action_is_noop_witness :
  truthy (action plainNote) = false /\
  step (Clicked plainNote) initial = initial.
Proof.
  split; [reflexivity|].
  apply (click_without_action_is_noop [] plainNote initial). reflexivity.
Defined.

(** ** Toggle-on and the two completions *)

(** C6.  For an insight with a non-empty action label and no entry yet, a
    click appends the entry (id, empty answer, loading) and changes nothing
    else, and sends the question made of the title, a colon and a space, and
    the action label.  When the generator succeeds with [text], every entry
    of that id in the list of that moment becomes (id, [text], not loading),
    in place; entries of other ids are untouched; if there is no entry of
    that id the panel is unchanged.  Run right after the click, it yields the
    old list followed by the resolved entry. *)
Theorem toggle_on_postcondition insight p :
  truthy (action insight) = true ->
  find (hasId (id insight)) (aiAnswers p) = None ->
  exists label,
    action insight = Some label /\
    let p1 := step (Clicked insight) p in
    aiAnswers p1
    = (aiAnswers p ++ [{| insightId := id insight; answer := ""; isLoading := true |}])%list /\
    onlyAnswersChange p p1 /\
    asked insight p = Some (title insight ++ ": " ++ label) /\
    (forall text,
        aiAnswers (step (AnswerSettled insight (Normal text)) p1)
        = (aiAnswers p ++ [{| insightId := id insight; answer := text; isLoading := false |}])%list) /\
    (forall text q,
        let q' := step (AnswerSettled insight (Normal text)) q in
        fst (handle (AnswerSettled insight (Normal text)) q) = Normal tt /\
        onlyAnswersChange q q' /\
        map insightId (aiAnswers q') = map insightId (aiAnswers q) /\
        (forall a, In a (aiAnswers q') -> insightId a = id insight ->
                   answer a = text /\ isLoading a = false) /\
        (forall j, j <> id insight ->
                   entries j (aiAnswers q') = entries j (aiAnswers q)) /\
        (entries (id insight) (aiAnswers q) = [] -> q' = q)).
Proof.
  intros Ht Hf. destruct (truthy_some _ Ht) as [label [Hl _]].
  exists label. split; [exact Hl|]. cbv zeta.
  rewrite step_click_insert by assumption.
  split; [reflexivity|]. split; [repeat split|].
  split.
  { unfold asked. rewrite click_insert by assumption. simpl.
    unfold question. now rewrite Hl. }
  split.
  - intros text. rewrite step_settled. simpl.
    rewrite map_app, update_absent by now apply find_none_entries.
    simpl. now rewrite hasId_pending.
  - intros text q. rewrite step_settled. simpl.
    split; [reflexivity|]. split; [repeat split|].
    split; [apply update_keeps_ids|].
    split; [intros a; apply update_resolves|].
    split; [intros j Hj; now apply entries_update_other|].
    intros Habs. rewrite update_absent by assumption. apply withAnswers_same.
Qed.

Lemma toggle_on_postcondition_witness :
  exists label,
    action saveMore = Some label /\
    aiAnswers (step (Clicked saveMore) initial)
    = [{| insightId := "1"; answer := ""; isLoading := true |}] /\
    asked saveMore initial = Some ("Save more" ++ ": " ++ label).
Proof.
  destruct (@toggle_on_postcondition saveMore initial eq_refl eq_refl)
    as [label [Hl [Ha [_ [Hq _]]]]].
  exists label. split; [exact Hl|]. split; [exact Ha|exact Hq].
Defined.

(** C7.  When the generator fails, with any error, the completion handler
    ends normally (nothing is thrown out of the click handler), every entry
    of that insight's id in the list of that moment becomes (id, the fixed
    apology, not loading) in place, entries of other ids are untouched, the
    rest of the panel is unchanged, and with no entry of that id the panel
    is unchanged. *)
Theorem generation_failure_is_absorbed insight e q :
  let q' := step (AnswerSettled insight (Throw e)) q in
  fst (handle (AnswerSettled insight (Throw e)) q) = Normal tt /\
  onlyAnswersChange q q' /\
  map insightId (aiAnswers q') = map insightId (aiAnswers q) /\
  (forall a, In a (aiAnswers q') -> insightId a = id insight ->
             answer a = apology /\ isLoading a = false) /\
  (forall j, j <> id insight ->
             entries j (aiAnswers q') = entries j (aiAnswers q)) /\
  (entries (id insight) (aiAnswers q) = [] -> q' = q) /\
  (forall l1 l2 a,
      aiAnswers q = (l1 ++ a :: l2)%list ->
      insightId a = id insight ->
      entries (id insight) l1 = [] -> entries (id insight) l2 = [] ->
      aiAnswers q'
      = (l1 ++ {| insightId := id insight; answer := apology; isLoading := false |}
            :: l2)%list).
Proof.
  cbv zeta. rewrite step_settled. simpl.
  split; [reflexivity|]. split; [repeat split|].
  split; [apply update_keeps_ids|].
  split; [intros a; apply update_resolves|].
  split; [intros j Hj; now apply entries_update_other|].
  split.
  - intros Habs. rewrite update_absent by assumption. apply withAnswers_same.
  - intros l1 l2 a Hq Hid H1 H2. rewrite Hq, map_app. simpl.
    rewrite !update_absent by assumption.
    unfold hasId at 1. rewrite Hid, String.eqb_refl.
    unfold resolveAnswer. now rewrite Hid.
Qed.

Lemma generation_failure_is_absorbed_witness :
  aiAnswers (run [Clicked saveMore;
                  AnswerSettled saveMore (Throw (Rejected "quota"))] initial)
  = [{| insightId := "1";
        answer := "Sorry, I was unable to generate a detailed answer. Please try again.";
        isLoading := false |}].
Proof.
  destruct (@generation_failure_is_absorbed saveMore (Rejected "quota")
              (step (Clicked saveMore) initial))
    as [_ [_ [_ [_ [_ [_ H]]]]]].
  apply (H [] [] (pendingAnswer "1")); reflexivity.
Defined.

(** ** Events and the answers they touch *)

Lemma answers_load_started p : aiAnswers (step LoadStarted p) = aiAnswers p.
Proof. reflexivity. Qed.

Lemma answers_load_settled fetched now p :
  aiAnswers (step (LoadSettled fetched now) p) = aiAnswers p.
Proof. destruct fetched; reflexivity. Qed.

(** The three things a click can do to the answers. *)
Lemma answers_clicked insight p :
  aiAnswers (step (Clicked insight) p) = aiAnswers p \/
  aiAnswers (step (Clicked insight) p)
  = filter (fun a => negb (hasId (id insight) a)) (aiAnswers p) \/
  (find (hasId (id insight)) (aiAnswers p) = None /\
   aiAnswers (step (Clicked insight) p)
   = (aiAnswers p ++ [pendingAnswer (id insight)])%list).
Proof.
  destruct (truthy (action insight)) eqn:Ht.
  - destruct (find (hasId (id insight)) (aiAnswers p)) as [a|] eqn:Hf.
    + right; left. now rewrite step_click_remove with (a := a).
    + right; right. split; [reflexivity|]. now rewrite step_click_insert.
  - left. now rewrite step_click_falsy.
Qed.

(** The same for a click whose handler closed over any list. *)
Lemma answers_clicked_on shown insight p :
  aiAnswers (step (ClickedOn shown insight) p) = aiAnswers p \/
  aiAnswers (step (ClickedOn shown insight) p)
  = filter (fun a => negb (hasId (id insight) a)) (aiAnswers p) \/
  (find (hasId (id insight)) shown = None /\
   truthy (action insight) = true /\
   aiAnswers (step (ClickedOn shown insight) p)
   = (aiAnswers p ++ [pendingAnswer (id insight)])%list).
Proof.
  destruct (truthy (action insight)) eqn:Ht.
  - destruct (find (hasId (id insight)) shown) as [a|] eqn:Hf.
    + right; left. now rewrite step_on_remove with (a := a).
    + right; right. split; [reflexivity|]. split; [reflexivity|].
      now rewrite step_on_insert.
  - left. now rewrite step_on_falsy.
Qed.

Lemma run_app es1 es2 p : run (es1 ++ es2) p = run es2 (run es1 p).
Proof. revert p. induction es1 as [|e es1 IH]; simpl; auto. Qed.

Section OneInsight.

Variable i : string.

(** Only a click on [i] can give [i] an entry. *)
Lemma absent_kept e p :
  clicks i e = false ->
  entries i (aiAnswers p) = [] -> entries i (aiAnswers (step e p)) = [].
Proof.
  intros Hc Habs.
  destruct e as [| fetched now | insight | insight generated | shown insight].
  - now rewrite answers_load_started.
  - now rewrite answers_load_settled.
  - simpl in Hc. apply String.eqb_neq in Hc.
    destruct (answers_clicked insight p) as [E | [E | [_ E]]]; rewrite E.
    + assumption.
    + rewrite entries_remove_other by congruence. assumption.
    + rewrite entries_app, Habs, entries_pending_other by congruence. reflexivity.
  - rewrite step_settled. simpl. rewrite entries_update, Habs. reflexivity.
  - simpl in Hc. apply String.eqb_neq in Hc.
    destruct (answers_clicked_on shown insight p) as [E | [E | [_ [_ E]]]];
      rewrite E.
    + assumption.
    + rewrite entries_remove_other by congruence. assumption.
    + rewrite entries_app, Habs, entries_pending_other by congruence. reflexivity.
Qed.

(** Only a click on [i] can take the entry of [i] away. *)
Lemma present_kept e p :
  clicks i e = false ->
  entries i (aiAnswers p) <> [] -> entries i (aiAnswers (step e p)) <> [].
Proof.
  intros Hc Hpre.
  destruct e as [| fetched now | insight | insight generated | shown insight].
  - now rewrite answers_load_started.
  - now rewrite answers_load_settled.
  - simpl in Hc. apply String.eqb_neq in Hc.
    destruct (answers_clicked insight p) as [E | [E | [_ E]]]; rewrite E.
    + assumption.
    + rewrite entries_remove_other by congruence. assumption.
    + rewrite entries_app. intros H. apply app_eq_nil in H. tauto.
  - rewrite step_settled. simpl. rewrite entries_update.
    intros H. apply map_eq_nil in H. contradiction.
  - simpl in Hc. apply String.eqb_neq in Hc.
    destruct (answers_clicked_on shown insight p) as [E | [E | [_ [_ E]]]];
      rewrite E.
    + assumption.
    + rewrite entries_remove_other by congruence. assumption.
    + rewrite entries_app. intros H. apply app_eq_nil in H. tauto.
Qed.

Lemma absent_kept_run es p :
  noClickOn i es = true ->
  entries i (aiAnswers p) = [] -> entries i (aiAnswers (run es p)) = [].
Proof.
  revert p. induction es as [|e es IH]; simpl; intros p Hn Habs; [assumption|].
  apply andb_true_iff in Hn. destruct Hn as [He Hes].
  apply negb_true_iff in He. apply IH; [assumption|]. now apply absent_kept.
Qed.

Lemma present_kept_run es p :
  noClickOn i es = true ->
  entries i (aiAnswers p) <> [] -> entries i (aiAnswers (run es p)) <> [].
Proof.
  revert p. induction es as [|e es IH]; simpl; intros p Hn Hpre; [assumption|].
  apply andb_true_iff in Hn. destruct Hn as [He Hes].
  apply negb_true_iff in He. apply IH; [assumption|]. now apply present_kept.
Qed.

End OneInsight.

(** ** Staleness *)

(** C2.  Take an insight with a non-empty action label and no entry.  A
    click creates its pending entry.  After any events that are not clicks
    on it, a second click (the toggle-off) and again any events that are not
    clicks on it, there is no entry of its id; and when the generation call
    then settles, with a text or with an error, the completion handler ends
    normally and leaves the panel exactly as it was, so no entry is created
    or filled.  More generally the completion handler changes nothing on
    any panel that has no entry of the insight's id. *)
Theorem stale_answer_is_dropped insight p before after generated :
  truthy (action insight) = true ->
  find (hasId (id insight)) (aiAnswers p) = None ->
  noClickOn (id insight) before = true ->
  noClickOn (id insight) after = true ->
  let p_on := step (Clicked insight) p in
  let p_off := run (before ++ [Clicked insight] ++ after) p_on in
  entries (id insight) (aiAnswers p_on) = [pendingAnswer (id insight)] /\
  entries (id insight) (aiAnswers p_off) = [] /\
  handle (AnswerSettled insight generated) p_off = (Normal tt, p_off) /\
  find (hasId (id insight))
       (aiAnswers (step (AnswerSettled insight generated) p_off)) = None /\
  (forall q, find (hasId (id insight)) (aiAnswers q) = None ->
             handle (AnswerSettled insight generated) q = (Normal tt, q)).
Proof.
  intros Ht Hf Hb Ha. cbv zeta.
  assert (Hgen : forall q, entries (id insight) (aiAnswers q) = [] ->
                           handle (AnswerSettled insight generated) q = (Normal tt, q)).
  { intros q Hq. simpl. rewrite settled_update.
    rewrite update_absent by assumption. now rewrite withAnswers_same. }
  assert (Hon : entries (id insight) (aiAnswers (step (Clicked insight) p))
                = [pendingAnswer (id insight)]).
  { rewrite step_click_insert by assumption. simpl.
    rewrite entries_app. apply find_none_entries in Hf. rewrite Hf.
    unfold entries. simpl. now rewrite hasId_pending. }
  assert (Hoff : entries (id insight)
                   (aiAnswers (run (before ++ [Clicked insight] ++ after)
                                   (step (Clicked insight) p))) = []).
  { rewrite !run_app. apply absent_kept_run; [assumption|]. simpl.
    set (p1 := run before (step (Clicked insight) p)).
    assert (Hpre : entries (id insight) (aiAnswers p1) <> []).
    { apply present_kept_run; [assumption|]. rewrite Hon. discriminate. }
    destruct (find (hasId (id insight)) (aiAnswers p1)) as [a|] eqn:Hf1.
    - rewrite step_click_remove with (a := a) by assumption.
      simpl. apply entries_remove.
    - apply find_none_entries in Hf1. contradiction. }
  split; [exact Hon|]. split; [exact Hoff|].
  split; [now apply Hgen|].
  split.
  - unfold step. rewrite Hgen by assumption. simpl. now apply find_none_entries.
  - intros q Hq. apply Hgen. now apply find_none_entries.
Qed.

Lemma stale_answer_is_dropped_witness :
  let p_off := run [Clicked saveMore; Clicked saveMore] initial in
  aiAnswers p_off = [] /\
  handle (AnswerSettled saveMore (Normal "Try the 50/30/20 rule.")) p_off
  = (Normal tt, p_off).
Proof.
  split; [reflexivity|].
  destruct (@stale_answer_is_dropped saveMore initial [] []
              (Normal "Try the 50/30/20 rule.") eq_refl eq_refl eq_refl eq_refl)
    as [_ [_ [H _]]].
  exact H.
Defined.

(** ** The toggle *)

(** Two clicks that reach the handler of one render, which shows no entry
    for the insight: both take the inserting branch. *)
Lemma insert_twice shown insight p :
  truthy (action insight) = true ->
  find (hasId (id insight)) shown = None ->
  step (ClickedOn shown insight) (step (ClickedOn shown insight) p)
  = withAnswers p
      (aiAnswers p ++ [pendingAnswer (id insight); pendingAnswer (id insight)]).
Proof.
  intros Ht Hf. rewrite !step_on_insert by assumption. simpl.
  rewrite withAnswers_twice, <- app_assoc. reflexivity.
Qed.

(** A click that inserts, then a click whose handler closed over a list
    that shows an entry of the id: the panel is back where it was. *)
Lemma insert_then_remove_on shown1 shown2 insight1 insight2 existing p :
  id insight1 = id insight2 ->
  truthy (action insight1) = true -> truthy (action insight2) = true ->
  find (hasId (id insight1)) shown1 = None ->
  find (hasId (id insight1)) (aiAnswers p) = None ->
  find (hasId (id insight2)) shown2 = Some existing ->
  step (ClickedOn shown2 insight2) (step (ClickedOn shown1 insight1) p) = p.
Proof.
  intros Hid H1 H2 Hf1 Hf Hf2.
  rewrite step_on_insert with (p := p) by assumption.
  rewrite step_on_remove with (a := existing) by assumption.
  simpl. rewrite <- Hid, filter_app, remove_absent
    by now apply find_none_entries.
  simpl. rewrite hasId_pending. simpl. rewrite app_nil_r.
  rewrite withAnswers_twice. apply withAnswers_same.
Qed.

(** C3, where the code departs from it.  The handler decides between
    inserting and removing on the list of the render it belongs to (line
    56), not on the list it writes to (lines 59 and 64).  So when two clicks
    on an insight with an action label reach the handler of one render that
    shows no entry for it, the second click does not find the entry the
    first one wrote: both send the question, and two pending entries of the
    insight's id are appended, so its answer sub-panel is rendered and the
    panel is not back where it was.  When the second click reaches the
    handler of a render that shows the entry, it removes it and the panel is
    back where it was. *)
Theorem two_clicks_on_one_render_insert_twice insight shown p :
  truthy (action insight) = true ->
  find (hasId (id insight)) shown = None ->
  let p1 := step (ClickedOn shown insight) p in
  let p2 := step (ClickedOn shown insight) p1 in
  askedOn shown insight p = Some (question insight) /\
  askedOn shown insight p1 = Some (question insight) /\
  aiAnswers p2
  = (aiAnswers p
     ++ [pendingAnswer (id insight); pendingAnswer (id insight)])%list /\
  renderAnswer (aiAnswers p2) insight <> None /\
  p2 <> p /\
  (forall later existing,
     find (hasId (id insight)) later = Some existing ->
     find (hasId (id insight)) (aiAnswers p) = None ->
     askedOn later insight p1 = None /\
     step (ClickedOn later insight) p1 = p).
Proof.
  intros Ht Hf. cbv zeta.
  split; [unfold askedOn; now rewrite click_insert|].
  split; [unfold askedOn; now rewrite click_insert|].
  rewrite insert_twice by assumption. simpl aiAnswers.
  split; [reflexivity|].
  split.
  - unfold renderAnswer. rewrite find_first_entry, entries_app.
    unfold entries at 2. simpl. rewrite hasId_pending.
    destruct (entries (id insight) (aiAnswers p)); discriminate.
  - split.
    + intros Heq. apply (f_equal (fun q => length (aiAnswers q))) in Heq.
      simpl in Heq. rewrite length_app in Heq. simpl in Heq. lia.
    + intros later existing Hl Habs. split.
      * unfold askedOn. now rewrite click_remove with (a := existing).
      * now apply insert_then_remove_on with (existing := existing).
Qed.

Lemma two_clicks_on_one_render_insert_twice_witness :
  aiAnswers (run [ClickedOn [] saveMore; ClickedOn [] saveMore] initial)
  = [pendingAnswer "1"; pendingAnswer "1"] /\
  askedOn [] saveMore (step (ClickedOn [] saveMore) initial)
  = Some "Save more: See how".
Proof.
  destruct (@two_clicks_on_one_render_insert_twice saveMore [] initial
              eq_refl eq_refl) as [_ [H2 [H3 _]]].
  split; [exact H3|exact H2].
Defined.

(** ** One entry per insight *)

(** A click whose handler closed over a list [shown] that has an entry for
    exactly the ids the current list has an entry for keeps ids unique. *)
Lemma AtMostOne_click shown insight p :
  (find (hasId (id insight)) shown = None ->
   find (hasId (id insight)) (aiAnswers p) = None) ->
  AtMostOne (aiAnswers p) ->
  AtMostOne (aiAnswers (snd (handleActionClick_start shown insight p))).
Proof.
  intros Hsame H. destruct (truthy (action insight)) eqn:Ht.
  - destruct (find (hasId (id insight)) shown) as [a|] eqn:Hf.
    + rewrite click_remove with (a := a) by assumption. simpl.
      now apply AtMostOne_remove.
    + rewrite click_insert by assumption. simpl.
      apply AtMostOne_insert; auto.
  - now rewrite click_falsy.
Qed.

Lemma AtMostOne_step e p :
  upToDate e p ->
  AtMostOne (aiAnswers p) -> AtMostOne (aiAnswers (step e p)).
Proof.
  intros Hup H.
  destruct e as [| fetched now | insight | insight generated | shown insight].
  - now rewrite answers_load_started.
  - now rewrite answers_load_settled.
  - destruct (answers_clicked insight p) as [E | [E | [Hf E]]]; rewrite E.
    + assumption.
    + now apply AtMostOne_remove.
    + now apply AtMostOne_insert.
  - rewrite step_settled. simpl. now apply AtMostOne_update.
  - simpl in Hup.
    destruct (answers_clicked_on shown insight p) as [E | [E | [Hf [_ E]]]];
      rewrite E.
    + assumption.
    + now apply AtMostOne_remove.
    + apply AtMostOne_insert; auto.
Qed.

Lemma AtMostOne_run es p :
  upToDateRun es p ->
  AtMostOne (aiAnswers p) -> AtMostOne (aiAnswers (run es p)).
Proof.
  revert p. induction es as [|e es IH]; simpl; intros p Hup H; [assumption|].
  destruct Hup as [He Hes]. apply IH; [assumption|]. now apply AtMostOne_step.
Qed.

(** C4, where the code departs from it.  On a panel whose answers hold at
    most one entry per id, two clicks on an insight with an action label
    that reach the handler of one render showing no entry for it leave two
    entries of that id: the test of line 56 reads the list of the render
    while the insertion of line 64 appends to the current list.  The first
    of the two clicks keeps the property, the second breaks it. *)
Theorem two_clicks_on_one_render_duplicate_entry insight shown p :
  truthy (action insight) = true ->
  find (hasId (id insight)) shown = None ->
  find (hasId (id insight)) (aiAnswers p) = None ->
  AtMostOne (aiAnswers p) ->
  let p1 := step (ClickedOn shown insight) p in
  let p2 := step (ClickedOn shown insight) p1 in
  AtMostOne (aiAnswers p1) /\
  entries (id insight) (aiAnswers p2)
  = [pendingAnswer (id insight); pendingAnswer (id insight)] /\
  ~ AtMostOne (aiAnswers p2).
Proof.
  intros Ht Hf Habs H. cbv zeta.
  assert (E : entries (id insight)
                (aiAnswers (step (ClickedOn shown insight)
                                 (step (ClickedOn shown insight) p)))
              = [pendingAnswer (id insight); pendingAnswer (id insight)]).
  { rewrite insert_twice by assumption. simpl aiAnswers.
    rewrite entries_app. apply find_none_entries in Habs. rewrite Habs.
    unfold entries. simpl. now rewrite hasId_pending. }
  split; [|split; [exact E|]].
  - apply AtMostOne_step; [simpl; auto|assumption].
  - intros Hone. specialize (Hone (id insight)). rewrite E in Hone.
    simpl in Hone. lia.
Qed.

Lemma two_clicks_on_one_render_duplicate_entry_witness :
  AtMostOne (aiAnswers initial) /\
  ~ AtMostOne (aiAnswers (run [ClickedOn [] saveMore; ClickedOn [] saveMore]
                              initial)).
Proof.
  assert (H0 : AtMostOne (aiAnswers initial)) by (intros i; simpl; lia).
  split; [exact H0|].
  destruct (@two_clicks_on_one_render_duplicate_entry saveMore [] initial
              eq_refl eq_refl eq_refl H0) as [_ [_ H]].
  exact H.
Defined.

(** ** Loading the insights *)

(** C5.  When the fetch succeeds with a list of records, [loadInsights]
    ends normally with that very list as the insights, in the same order,
    the time read at that moment as "last updated", the loading flag off and
    the answers untouched; between its start and the completion of the fetch
    the loading flag is on.  The rendered panel then has one card per
    record, in the order of the list, and shows the time. *)
Theorem load_success_replaces_insights newInsights now p :
  loadInsights (Normal newInsights) now p
  = (Normal tt,
     {| insights := newInsights; loading := false;
        lastUpdated := Some now; aiAnswers := aiAnswers p |}) /\
  loading (snd (loadInsights_start p)) = true /\
  run [LoadStarted; LoadSettled (Normal newInsights) now] p
  = snd (loadInsights (Normal newInsights) now p) /\
  (let p' := snd (loadInsights (Normal newInsights) now p) in
   exists cards,
     content (render p') = Cards cards /\
     length cards = length newInsights /\
     map key cards = map id newInsights /\
     map heading cards = map title newInsights /\
     footer (render p') = Some now /\
     lastUpdated p' <> None).
Proof.
  split; [reflexivity|]. split; [reflexivity|]. split; [reflexivity|].
  cbv zeta. simpl.
  exists (map (renderCard (aiAnswers p)) newInsights).
  split; [reflexivity|].
  split; [apply length_map|].
  split; [rewrite map_map; reflexivity|].
  split; [rewrite map_map; reflexivity|].
  split; [reflexivity|discriminate].
Qed.

(** C1 as it is written does not hold.  After a failed first fetch the one
    record of the panel carries the action label "Try again later", its
    button is rendered, and a click on it sends a question; so it is not a
    record with id [fallback-1] and category [info] that has no action
    label, no button and no way to request an answer. *)
Lemma fallback_has_an_action :
  let p := snd (loadInsights (Throw (Rejected "offline")) 0%Z initial) in
  (exists r, insights p = [r] /\
             action r = Some "Try again later" /\
             renderButton r = Some "Try again later →" /\
             asked r p = Some "AI Temporarily Unavailable: Try again later") /\
  ~ (exists r, insights p = [r] /\ id r = "fallback-1" /\ type r = info /\
               action r = None /\ renderButton r = None /\ asked r p = None).
Proof.
  cbv zeta. split.
  - exists fallbackInsight. repeat split.
  - intros [r [Hr [_ [_ [Ha _]]]]]. simpl in Hr. injection Hr as <-. discriminate.
Qed.

(** C1, amended.  When the fetch fails, with any error, [loadInsights] ends
    normally with exactly one insight: id [fallback-1], category [info],
    the fixed title and message, and the action label "Try again later".
    "Last updated" keeps the value it had (none on a first fetch), the
    loading flag is off and the answers are untouched.  The card is rendered
    with its button, and a click on it, when it has no entry, sends a
    question built from the fixed title and that label. *)
Theorem load_failure_shows_fallback e now p :
  loadInsights (Throw e) now p
  = (Normal tt,
     {| insights := [fallbackInsight]; loading := false;
        lastUpdated := lastUpdated p; aiAnswers := aiAnswers p |}) /\
  lastUpdated (snd (loadInsights (Throw e) now initial)) = None /\
  id fallbackInsight = "fallback-1" /\
  type fallbackInsight = info /\
  title fallbackInsight = "AI Temporarily Unavailable" /\
  message fallbackInsight
  = "We're working to restore AI insights. Please check back soon." /\
  action fallbackInsight = Some "Try again later" /\
  (let p' := snd (loadInsights (Throw e) now p) in
   content (render p') = Cards [renderCard (aiAnswers p) fallbackInsight] /\
   footer (render p') = lastUpdated p /\
   button (renderCard (aiAnswers p) fallbackInsight) = Some "Try again later →" /\
   (find (hasId "fallback-1") (aiAnswers p) = None ->
    asked fallbackInsight p' = Some "AI Temporarily Unavailable: Try again later")).
Proof.
  repeat (split; [reflexivity|]). cbv zeta. simpl.
  repeat (split; [reflexivity|]).
  intros Hf. unfold asked. simpl aiAnswers.
  rewrite click_insert by (simpl; auto). reflexivity.
Qed.

Lemma load_failure_shows_fallback_witness :
  asked fallbackInsight (snd (loadInsights (Throw (Rejected "offline")) 0%Z initial))
  = Some "AI Temporarily Unavailable: Try again later".
Proof.
  destruct (load_failure_shows_fallback (Rejected "offline") 0%Z initial)
    as [_ [_ [_ [_ [_ [_ [_ [_ [_ [_ H]]]]]]]]]].
  apply H. reflexivity.
Defined.

(** ** The page shell *)

(** C9 as it is written does not hold.  With a user signed in, the page is
    a [div] holding one heading, "Home Page": no component of the
    application is mounted in it, neither a dashboard nor the insights
    panel. *)
Lemma home_page_mounts_no_panel :
  let user := {| Clerk.id := "user_1"; Clerk.firstName := Some "Ada";
                 Clerk.lastName := Some "Lovelace"; Clerk.imageUrl := "a.png";
                 Clerk.emailAddresses := [Clerk.mkEmail "ada@example.org"] |} in
  let s := {| Clerk.signedIn := Some user; Clerk.lookups := 0 |} in
  fst (Page.HomePage s)
  = Normal (Page.Host "div" None
              [Page.Host "h1" (Some "bg-red-400") [Page.Text "Home Page"]]) /\
  ~ (exists view, fst (Page.HomePage s) = Normal view /\
                  Page.mounts "Insights" view = true).
Proof.
  cbv zeta. split; [reflexivity|].
  intros [view [Hv Hm]]. simpl in Hv. injection Hv as <-. discriminate.
Qed.

(** C9, amended.  Every render of the page looks the signed-in user up
    exactly once and ends normally.  Without a user it returns the guest
    view; with a user it returns a [div] holding the heading "Home Page",
    a tree that mounts no component at all. *)
Theorem home_page_contract s :
  Clerk.lookups (snd (Page.HomePage s)) = S (Clerk.lookups s) /\
  Clerk.signedIn (snd (Page.HomePage s)) = Clerk.signedIn s /\
  (Clerk.signedIn s = None ->
   fst (Page.HomePage s) = Normal (Page.Component "Guest")) /\
  (forall user, Clerk.signedIn s = Some user ->
   fst (Page.HomePage s)
   = Normal (Page.Host "div" None
               [Page.Host "h1" (Some "bg-red-400") [Page.Text "Home Page"]])) /\
  (forall name, Page.mounts name Page.homeView = false) /\
  Page.mounts "Guest" Page.guestView = true.
Proof.
  unfold Page.HomePage, bind, Clerk.currentUser.
  destruct (Clerk.signedIn s) as [u|] eqn:E; simpl;
    repeat split; try reflexivity; try assumption; try discriminate.
Qed.

Lemma home_page_contract_witness :
  fst (Page.HomePage {| Clerk.signedIn := None; Clerk.lookups := 0 |})
  = Normal (Page.Component "Guest").
Proof.
  destruct (home_page_contract {| Clerk.signedIn := None; Clerk.lookups := 0 |})
    as [_ [_ [H _]]].
  apply H. reflexivity.
Defined.

(** ** User resolution *)

Section CheckUserFacts.

Import CheckUser.

Variables (Db DbUser : Type).
Variable findUnique : string -> M Db (option DbUser).
Variable create : UserCreateInput -> M Db DbUser.

(** C10.  Take a signed-in user for whom the look-up by [clerkUserId] ends
    normally with no row.  If the user's list of email addresses is empty,
    [checkUser] throws a [TypeError] from reading [emailAddress] of the
    missing first element, and [create] is not called: the store is as the
    look-up left it.  If the list has a first element, [create] is called
    once, on the store the look-up left, with that element's address as the
    email, the id, "first last" as the name and the image URL; its outcome
    is the outcome of [checkUser]. *)
Theorem checkUser_reads_first_email w user d :
  Clerk.signedIn (session w) = Some user ->
  findUnique (Clerk.id user) (db w) = (Normal None, d) ->
  let s' := {| Clerk.signedIn := Clerk.signedIn (session w);
               Clerk.lookups := S (Clerk.lookups (session w)) |} in
  (Clerk.emailAddresses user = [] ->
   checkUser findUnique create w
   = (Throw (TypeError
               "Cannot read properties of undefined (reading 'emailAddress')"),
      {| session := s'; db := d |})) /\
  (forall first rest,
     Clerk.emailAddresses user = first :: rest ->
     let data :=
       {| clerkUserId := Clerk.id user;
          name := nullable_to_string (Clerk.firstName user) ++ " "
                  ++ nullable_to_string (Clerk.lastName user);
          imageUrl := Clerk.imageUrl user;
          email := Clerk.emailAddress first |} in
     checkUser findUnique create w
     = (match fst (create data d) with
        | Normal newUser => Normal (Some newUser)
        | Throw e => Throw e
        end,
        {| session := s'; db := snd (create data d) |})).
Proof.
  intros Hu Hfind. cbv zeta. split.
  - intros Hnil. unfold checkUser, bind, onSession, onDb, Clerk.currentUser.
    simpl. rewrite Hu. simpl. rewrite Hfind. simpl.
    unfold firstEmail. rewrite Hnil. reflexivity.
  - intros first rest Hcons.
    unfold checkUser, bind, onSession, onDb, Clerk.currentUser.
    simpl. rewrite Hu. simpl. rewrite Hfind. simpl.
    unfold firstEmail. rewrite Hcons. simpl.
    destruct (create _ d) as [[newUser|e] d']; reflexivity.
Qed.

End CheckUserFacts.

Lemma checkUser_reads_first_email_witness :
  let user := {| Clerk.id := "user_1"; Clerk.firstName := Some "Ada";
                 Clerk.lastName := None; Clerk.imageUrl := "a.png";
                 Clerk.emailAddresses := [] |} in
  let w := {| CheckUser.session := {| Clerk.signedIn := Some user; Clerk.lookups := 0 |};
              CheckUser.db := ([] : CheckUser.Rows) |} in
  fst (CheckUser.checkUser CheckUser.rowsFindUnique CheckUser.rowsCreate w)
  = Throw (TypeError "Cannot read properties of undefined (reading 'emailAddress')") /\
  CheckUser.db (snd (CheckUser.checkUser CheckUser.rowsFindUnique CheckUser.rowsCreate w))
  = [].
Proof.
  cbv zeta.
  match goal with
  | |- context [CheckUser.checkUser _ _ ?w] =>
      destruct (@checkUser_reads_first_email _ _ CheckUser.rowsFindUnique
                  CheckUser.rowsCreate w _ [] eq_refl eq_refl) as [H _]
  end.
  rewrite H by reflexivity. split; reflexivity.
Defined.

(** * Further properties of the component *)

(** ** What each kind of event leaves alone *)

Lemma step_click_frame insight p :
  exists l, step (Clicked insight) p = withAnswers p l.
Proof.
  destruct (truthy (action insight)) eqn:Ht.
  - destruct (find (hasId (id insight)) (aiAnswers p)) as [a|] eqn:Hf.
    + eexists. now rewrite step_click_remove with (a := a).
    + eexists. now rewrite step_click_insert.
  - exists (aiAnswers p). rewrite step_click_falsy by assumption.
    symmetry. apply withAnswers_same.
Qed.

Lemma step_on_frame shown insight p :
  exists l, step (ClickedOn shown insight) p = withAnswers p l.
Proof.
  destruct (truthy (action insight)) eqn:Ht.
  - destruct (find (hasId (id insight)) shown) as [a|] eqn:Hf.
    + eexists. now rewrite step_on_remove with (a := a).
    + eexists. now rewrite step_on_insert.
  - exists (aiAnswers p). rewrite step_on_falsy by assumption.
    symmetry. apply withAnswers_same.
Qed.

Lemma step_answers_only e p :
  loads e = false -> exists l, step e p = withAnswers p l.
Proof.
  destruct e as [| fetched now | insight | insight generated | shown insight];
    simpl; intros H; try discriminate.
  - apply step_click_frame.
  - eexists. apply step_settled.
  - apply step_on_frame.
Qed.

Lemma noneOf_cons test e es :
  noneOf test (e :: es) = true -> test e = false /\ noneOf test es = true.
Proof.
  unfold noneOf. simpl. intros H. apply andb_true_iff in H.
  destruct H as [He Hes]. apply negb_true_iff in He. auto.
Qed.

Lemma loading_kept e p : loads e = false -> loading (step e p) = loading p.
Proof.
  intros H. destruct (step_answers_only e p H) as [l ->]. reflexivity.
Qed.

Lemma loading_kept_run es p :
  noneOf loads es = true -> loading (run es p) = loading p.
Proof.
  revert p. induction es as [|e es IH]; intros p H; [reflexivity|].
  simpl run. apply noneOf_cons in H. destruct H as [He Hes].
  rewrite IH by assumption. now apply loading_kept.
Qed.

Lemma lastUpdated_kept e p :
  succeedsLoad e = false -> lastUpdated (step e p) = lastUpdated p.
Proof.
  destruct e as [| fetched now | insight | insight generated | shown insight];
    simpl; intros H.
  - reflexivity.
  - destruct fetched; [discriminate|reflexivity].
  - destruct (step_click_frame insight p) as [l ->]. reflexivity.
  - now rewrite step_settled.
  - destruct (step_on_frame shown insight p) as [l ->]. reflexivity.
Qed.

Lemma lastUpdated_kept_run es p :
  noneOf succeedsLoad es = true -> lastUpdated (run es p) = lastUpdated p.
Proof.
  revert p. induction es as [|e es IH]; intros p H; [reflexivity|].
  simpl run. apply noneOf_cons in H. destruct H as [He Hes].
  rewrite IH by assumption. now apply lastUpdated_kept.
Qed.

Lemma insights_kept e p :
  settlesLoad e = false -> insights (step e p) = insights p.
Proof.
  destruct e as [| fetched now | insight | insight generated | shown insight];
    simpl; intros H.
  - reflexivity.
  - discriminate.
  - destruct (step_click_frame insight p) as [l ->]. reflexivity.
  - now rewrite step_settled.
  - destruct (step_on_frame shown insight p) as [l ->]. reflexivity.
Qed.

Lemma insights_kept_run es p :
  noneOf settlesLoad es = true -> insights (run es p) = insights p.
Proof.
  revert p. induction es as [|e es IH]; intros p H; [reflexivity|].
  simpl run. apply noneOf_cons in H. destruct H as [He Hes].
  rewrite IH by assumption. now apply insights_kept.
Qed.

(** ** The loading flag, the list and the time stamp over a history *)

Lemma loading_until_settled es p :
  noneOf settlesLoad es = true -> loading p = true -> loading (run es p) = true.
Proof.
  revert p. induction es as [|e es IH]; intros p H Hp; [assumption|].
  simpl run. apply noneOf_cons in H. destruct H as [He Hes].
  apply IH; [assumption|].
  destruct e as [| fetched now | insight | insight generated | shown insight];
    try discriminate; [reflexivity| | |]; now rewrite loading_kept.
Qed.

(** X1.  The loading flag is decided by the last load event of the history:
    it is on, and three placeholders with keys 1, 2, 3 are rendered instead
    of the cards, from the start of a load until a load settles, whatever
    clicks and generation results arrive in between; it is off once a load
    has settled, with either outcome, until the next load starts.  From the
    mount, the placeholders are shown as long as no load has settled. *)
Theorem loading_follows_last_load es1 es2 p :
  noneOf loads es2 = true ->
  (loading (run (es1 ++ LoadStarted :: es2) p) = true /\
   content (render (run (es1 ++ LoadStarted :: es2) p)) = Placeholders [1; 2; 3]) /\
  (forall fetched now,
     loading (run (es1 ++ LoadSettled fetched now :: es2) p) = false /\
     exists cards,
       content (render (run (es1 ++ LoadSettled fetched now :: es2) p))
       = Cards cards) /\
  (noneOf settlesLoad es1 = true ->
   content (render (run es1 initial)) = Placeholders [1; 2; 3]).
Proof.
  intros H2. split; [|split].
  - assert (E : loading (run (es1 ++ LoadStarted :: es2) p) = true).
    { rewrite run_app. simpl. now rewrite loading_kept_run. }
    split; [exact E|]. unfold render. simpl. now rewrite E.
  - intros fetched now.
    assert (E : loading (run (es1 ++ LoadSettled fetched now :: es2) p) = false).
    { rewrite run_app. simpl. rewrite loading_kept_run by assumption.
      destruct fetched; reflexivity. }
    split; [exact E|]. unfold render. simpl. rewrite E. eexists. reflexivity.
  - intros H1.
    assert (E : loading (run es1 initial) = true).
    { now apply loading_until_settled. }
    unfold render. simpl. now rewrite E.
Qed.

Lemma loading_follows_last_load_witness :
  content (render (run [LoadStarted; Clicked saveMore;
                        AnswerSettled saveMore (Normal "ok")] initial))
  = Placeholders [1; 2; 3].
Proof.
  destruct (@loading_follows_last_load []
              [Clicked saveMore; AnswerSettled saveMore (Normal "ok")]
              initial eq_refl) as [[_ H] _].
  exact H.
Defined.

(** X2.  "Last updated" is the time read at the most recent load whose fetch
    succeeded: no other event changes it, so a failed load, a click or a
    generation result leaves the earlier time in place, and the footer of
    the rendered panel shows it, also while a later load is running. *)
Theorem lastUpdated_is_last_success es1 es2 newInsights now p :
  noneOf succeedsLoad es2 = true ->
  lastUpdated (run (es1 ++ LoadSettled (Normal newInsights) now :: es2) p)
  = Some now /\
  footer (render (run (es1 ++ LoadSettled (Normal newInsights) now :: es2) p))
  = Some now /\
  lastUpdated (run es2 p) = lastUpdated p.
Proof.
  intros H2.
  assert (E : lastUpdated
                (run (es1 ++ LoadSettled (Normal newInsights) now :: es2) p)
              = Some now).
  { rewrite run_app. simpl. now rewrite lastUpdated_kept_run. }
  split; [exact E|]. split; [exact E|]. now apply lastUpdated_kept_run.
Qed.

Lemma lastUpdated_is_last_success_witness :
  lastUpdated (run [LoadStarted; LoadSettled (Normal [saveMore]) 5%Z;
                    LoadStarted; LoadSettled (Throw (Rejected "offline")) 9%Z]
                   initial)
  = Some 5%Z.
Proof.
  destruct (@lastUpdated_is_last_success [LoadStarted]
              [LoadStarted; LoadSettled (Throw (Rejected "offline")) 9%Z]
              [saveMore] 5%Z initial eq_refl) as [H _].
  exact H.
Defined.

(** X3.  The insights shown are those of the most recent settled load: the
    fetched list if it succeeded, the single fallback record if it failed,
    and nothing but a settled load replaces them.  In particular a failed
    reload discards the list fetched before, while the time of that earlier
    fetch stays. *)
Theorem insights_are_last_load es1 es2 fetched now p :
  noneOf settlesLoad es2 = true ->
  insights (run (es1 ++ LoadSettled fetched now :: es2) p)
  = match fetched with
    | Normal newInsights => newInsights
    | Throw _ => [fallbackInsight]
    end /\
  (forall newInsights before e,
     fetched = Throw e ->
     noneOf succeedsLoad es2 = true ->
     let p' := run ((es1 ++ [LoadSettled (Normal newInsights) before])
                    ++ LoadSettled fetched now :: es2) p in
     insights p' = [fallbackInsight] /\ lastUpdated p' = Some before).
Proof.
  intros H2. split.
  - rewrite run_app. simpl. rewrite insights_kept_run by assumption.
    destruct fetched; reflexivity.
  - intros newInsights before e -> Hs. cbv zeta. split.
    + rewrite run_app. simpl. now rewrite insights_kept_run.
    + rewrite !run_app. simpl. now rewrite lastUpdated_kept_run.
Qed.

Lemma insights_are_last_load_witness :
  insights (run [LoadStarted; LoadSettled (Normal [saveMore]) 5%Z;
                 LoadStarted; LoadSettled (Throw (Rejected "offline")) 9%Z;
                 Clicked fallbackInsight] initial)
  = [fallbackInsight].
Proof.
  destruct (@insights_are_last_load
              [LoadStarted; LoadSettled (Normal [saveMore]) 5%Z; LoadStarted]
              [Clicked fallbackInsight] (Throw (Rejected "offline")) 9%Z
              initial eq_refl) as [H _].
  exact H.
Defined.

(** ** Entries: loading and text *)

Lemma PendingEmpty_step e p :
  PendingEmpty (aiAnswers p) -> PendingEmpty (aiAnswers (step e p)).
Proof.
  intros H.
  destruct e as [| fetched now | insight | insight generated | shown insight].
  - now rewrite answers_load_started.
  - now rewrite answers_load_settled.
  - destruct (answers_clicked insight p) as [E | [E | [_ E]]]; rewrite E.
    + assumption.
    + intros a Ha. apply filter_In in Ha. now apply H.
    + intros a Ha Hl. apply in_app_or in Ha. destruct Ha as [Ha|[<-|[]]].
      * now apply H.
      * reflexivity.
  - rewrite step_settled. simpl. intros a Ha Hl.
    apply in_map_iff in Ha. destruct Ha as [b [<- Hb]].
    destruct (hasId (id insight) b); [discriminate|]. now apply H.
  - destruct (answers_clicked_on shown insight p) as [E | [E | [_ [_ E]]]];
      rewrite E.
    + assumption.
    + intros a Ha. apply filter_In in Ha. now apply H.
    + intros a Ha Hl. apply in_app_or in Ha. destruct Ha as [Ha|[<-|[]]].
      * now apply H.
      * reflexivity.
Qed.

(** X4.  In every state reached from the mount, an entry that is still
    loading has the empty string for its text: an entry is created loading
    and empty, and the only writes to its text clear the loading flag in the
    same update.  So the panel never holds a half-written answer. *)
Theorem loading_entries_are_empty es a :
  In a (aiAnswers (run es initial)) -> isLoading a = true -> answer a = "".
Proof.
  revert a. change (PendingEmpty (aiAnswers (run es initial))).
  assert (H : PendingEmpty (aiAnswers initial)) by (intros a []).
  revert H. generalize initial.
  induction es as [|e es IH]; simpl; intros p H; [assumption|].
  apply IH. now apply PendingEmpty_step.
Qed.

Lemma loading_entries_are_empty_witness :
  In (pendingAnswer "1") (aiAnswers (run [Clicked saveMore] initial)) /\
  isLoading (pendingAnswer "1") = true /\
  answer (pendingAnswer "1") = "".
Proof.
  assert (Hin : In (pendingAnswer "1") (aiAnswers (run [Clicked saveMore] initial)))
    by (left; reflexivity).
  split; [exact Hin|]. split; [reflexivity|].
  exact (@loading_entries_are_empty [Clicked saveMore] (pendingAnswer "1")
           Hin eq_refl).
Defined.

(** ** Insights do not interfere *)

Lemma entries_untouched i e p :
  touches i e = false ->
  entries i (aiAnswers (step e p)) = entries i (aiAnswers p).
Proof.
  intros Ht.
  destruct e as [| fetched now | insight | insight generated | shown insight].
  - now rewrite answers_load_started.
  - now rewrite answers_load_settled.
  - simpl in Ht. apply String.eqb_neq in Ht.
    destruct (answers_clicked insight p) as [E | [E | [_ E]]]; rewrite E.
    + reflexivity.
    + apply entries_remove_other. congruence.
    + rewrite entries_app, entries_pending_other by congruence. apply app_nil_r.
  - simpl in Ht. apply String.eqb_neq in Ht.
    rewrite step_settled. simpl. apply entries_update_other. congruence.
  - simpl in Ht. apply String.eqb_neq in Ht.
    destruct (answers_clicked_on shown insight p) as [E | [E | [_ [_ E]]]];
      rewrite E.
    + reflexivity.
    + apply entries_remove_other. congruence.
    + rewrite entries_app, entries_pending_other by congruence. apply app_nil_r.
Qed.

(** X5.  The entries of one insight id are changed only by a click on, or a
    generation result for, an insight of that id.  Loads, clicks on other
    insights and results for other insights leave them exactly as they are,
    and with them the answer sub-panel rendered for that insight: a pending
    entry stays pending, a shown text stays shown. *)
Theorem other_events_leave_entries es insight p :
  noneOf (touches (id insight)) es = true ->
  entries (id insight) (aiAnswers (run es p))
  = entries (id insight) (aiAnswers p) /\
  renderAnswer (aiAnswers (run es p)) insight
  = renderAnswer (aiAnswers p) insight.
Proof.
  intros H.
  assert (E : entries (id insight) (aiAnswers (run es p))
              = entries (id insight) (aiAnswers p)).
  { revert p. induction es as [|e es IH]; intros p; [reflexivity|].
    simpl run. apply noneOf_cons in H. destruct H as [He Hes].
    rewrite IH by assumption. now apply entries_untouched. }
  split; [exact E|]. unfold renderAnswer. now rewrite !find_first_entry, E.
Qed.

Lemma other_events_leave_entries_witness :
  renderAnswer
    (aiAnswers (run [Clicked fallbackInsight; LoadStarted;
                     AnswerSettled fallbackInsight (Normal "later")]
                    (step (Clicked saveMore) initial)))
    saveMore
  = Some Spinner.
Proof.
  destruct (@other_events_leave_entries
              [Clicked fallbackInsight; LoadStarted;
               AnswerSettled fallbackInsight (Normal "later")]
              saveMore (step (Clicked saveMore) initial) eq_refl) as [_ H].
  rewrite H. reflexivity.
Defined.

(** ** Generation results *)

Lemma update_twice i t1 t2 l :
  map (fun a => if hasId i a then resolveAnswer t2 a else a)
      (map (fun a => if hasId i a then resolveAnswer t1 a else a) l)
  = map (fun a => if hasId i a then resolveAnswer t2 a else a) l.
Proof.
  rewrite map_map. apply map_ext. intros a.
  destruct (hasId i a) eqn:E; [|now rewrite E].
  rewrite hasId_resolve, E. reflexivity.
Qed.

Lemma update_commute i j t1 t2 l :
  i <> j ->
  map (fun a => if hasId i a then resolveAnswer t1 a else a)
      (map (fun a => if hasId j a then resolveAnswer t2 a else a) l)
  = map (fun a => if hasId j a then resolveAnswer t2 a else a)
      (map (fun a => if hasId i a then resolveAnswer t1 a else a) l).
Proof.
  intros Hne. rewrite !map_map. apply map_ext. intros a.
  destruct (hasId i a) eqn:Ei; destruct (hasId j a) eqn:Ej;
    rewrite ?hasId_resolve, ?Ei, ?Ej; try reflexivity.
  unfold hasId in *. apply String.eqb_eq in Ei, Ej. congruence.
Qed.

(** X6.  A generation result is written to whatever entry holds the
    insight's id when it arrives; the handler keeps no link to the call it
    answers.  So of two results for the same id the later one decides: the
    panel is what the later result alone would have produced. *)
Theorem later_result_overwrites insight1 insight2 generated1 generated2 p :
  id insight1 = id insight2 ->
  step (AnswerSettled insight2 generated2)
       (step (AnswerSettled insight1 generated1) p)
  = step (AnswerSettled insight2 generated2) p.
Proof.
  intros Hid. rewrite !step_settled. simpl. rewrite Hid, update_twice.
  reflexivity.
Qed.

Lemma later_result_overwrites_witness :
  aiAnswers (run [Clicked saveMore; AnswerSettled saveMore (Normal "first");
                  AnswerSettled saveMore (Throw (Rejected "late"))] initial)
  = [{| insightId := "1"; answer := apology; isLoading := false |}].
Proof.
  simpl run.
  rewrite (@later_result_overwrites saveMore saveMore (Normal "first")
             (Throw (Rejected "late")) (step (Clicked saveMore) initial) eq_refl).
  reflexivity.
Defined.

(** X7.  Generation results for insights with different ids commute: the
    panel does not depend on the order in which two outstanding calls
    settle. *)
Theorem results_for_different_insights_commute
    insight1 insight2 generated1 generated2 p :
  id insight1 <> id insight2 ->
  step (AnswerSettled insight1 generated1)
       (step (AnswerSettled insight2 generated2) p)
  = step (AnswerSettled insight2 generated2)
         (step (AnswerSettled insight1 generated1) p).
Proof.
  intros Hne. rewrite !step_settled. simpl.
  now rewrite update_commute.
Qed.

Lemma results_for_different_insights_commute_witness :
  run [AnswerSettled saveMore (Normal "a");
       AnswerSettled fallbackInsight (Normal "b")]
      (run [Clicked saveMore; Clicked fallbackInsight] initial)
  = run [AnswerSettled fallbackInsight (Normal "b");
         AnswerSettled saveMore (Normal "a")]
        (run [Clicked saveMore; Clicked fallbackInsight] initial).
Proof.
  simpl run.
  apply (@results_for_different_insights_commute fallbackInsight saveMore
           (Normal "b") (Normal "a")).
  discriminate.
Defined.

(** ** The toggle is keyed by the id alone *)

(** A click that inserts, any result for the id, then a click by an insight
    of the same id: the panel is back where it was. *)
Lemma insert_then_remove insight1 insight2 p :
  id insight1 = id insight2 ->
  truthy (action insight1) = true -> truthy (action insight2) = true ->
  find (hasId (id insight1)) (aiAnswers p) = None ->
  step (Clicked insight2) (step (Clicked insight1) p) = p.
Proof.
  intros Hid H1 H2 Hf.
  rewrite step_click_insert with (p := p) by assumption.
  rewrite step_click_remove with (a := pendingAnswer (id insight1)).
  - simpl. rewrite <- Hid, filter_app, remove_absent
      by now apply find_none_entries.
    simpl. rewrite hasId_pending. simpl. rewrite app_nil_r.
    rewrite withAnswers_twice. apply withAnswers_same.
  - assumption.
  - simpl. rewrite <- Hid. apply find_appended; [assumption|apply hasId_pending].
Qed.

(** X8.  Entries are found by insight id and by nothing else.  Two
    records with the same id render the same answer sub-panel at every
    moment.  If both have an action label and the id has no entry, a click
    on one followed by a click on the other is a toggle-on followed by a
    toggle-off exactly when the second click reaches the handler of a
    render that shows the entry: then the second click sends no question
    and the panel is back where it was, although two different cards were
    clicked.  When the handler of the second click belongs to a render that
    shows no entry, the second click sends its own question and a second
    entry of the same id is appended. *)
Theorem same_id_shares_the_entry insight1 insight2 shown1 shown2 p :
  id insight1 = id insight2 ->
  (forall answers,
     renderAnswer answers insight1 = renderAnswer answers insight2) /\
  (truthy (action insight1) = true -> truthy (action insight2) = true ->
   find (hasId (id insight1)) shown1 = None ->
   find (hasId (id insight1)) (aiAnswers p) = None ->
   let p1 := step (ClickedOn shown1 insight1) p in
   (find (hasId (id insight2)) shown2 <> None ->
    step (ClickedOn shown2 insight2) p1 = p /\
    askedOn shown2 insight2 p1 = None) /\
   (find (hasId (id insight2)) shown2 = None ->
    aiAnswers (step (ClickedOn shown2 insight2) p1)
    = (aiAnswers p
       ++ [pendingAnswer (id insight1); pendingAnswer (id insight1)])%list /\
    askedOn shown2 insight2 p1 = Some (question insight2))).
Proof.
  intros Hid. split.
  - intros answers. unfold renderAnswer. now rewrite Hid.
  - intros H1 H2 Hf1 Hf. cbv zeta. split.
    + intros Hshown.
      destruct (find (hasId (id insight2)) shown2) as [existing|] eqn:E;
        [|contradiction].
      split.
      * now apply insert_then_remove_on with (existing := existing).
      * unfold askedOn. now rewrite click_remove with (a := existing).
    + intros Hnone. split.
      * rewrite step_on_insert with (p := p) by assumption.
        rewrite step_on_insert by assumption. simpl.
        now rewrite <- Hid, <- app_assoc.
      * unfold askedOn. now rewrite click_insert.
Qed.

Lemma same_id_shares_the_entry_witness :
  let twin := {| id := "1"; type := info; title := "Another card";
                 message := "..."; action := Some "More"; confidence := None |} in
  run [ClickedOn [] saveMore; ClickedOn [pendingAnswer "1"] twin] initial
  = initial.
Proof.
  cbv zeta.
  match goal with
  | |- run [_; ClickedOn _ ?t] _ = _ =>
      destruct (@same_id_shares_the_entry saveMore t [] [pendingAnswer "1"]
                  initial eq_refl) as [_ H]
  end.
  destruct (H eq_refl eq_refl eq_refl eq_refl) as [H' _].
  destruct (H' ltac:(discriminate)) as [H'' _]. exact H''.
Defined.

(** X9.  A result that arrives late is not dropped when the insight has
    been requested again in the meantime.  After toggle-on, toggle-off and
    toggle-on, the entry of the third click is filled by the first result
    to arrive for that id, whichever call it answers: the entry stops
    loading and shows that text (or the apology), with the old list in
    front of it unchanged. *)
Theorem late_result_fills_new_request insight generated p :
  truthy (action insight) = true ->
  find (hasId (id insight)) (aiAnswers p) = None ->
  let p3 := run [Clicked insight; Clicked insight; Clicked insight] p in
  aiAnswers p3 = (aiAnswers p ++ [pendingAnswer (id insight)])%list /\
  aiAnswers (step (AnswerSettled insight generated) p3)
  = (aiAnswers p
     ++ [{| insightId := id insight; answer := shownText generated;
            isLoading := false |}])%list /\
  renderAnswer (aiAnswers (step (AnswerSettled insight generated) p3)) insight
  = Some (AnswerText (shownText generated)).
Proof.
  intros Ht Hf. cbv zeta.
  assert (E3 : run [Clicked insight; Clicked insight; Clicked insight] p
               = withAnswers p (aiAnswers p ++ [pendingAnswer (id insight)])).
  { simpl. rewrite insert_then_remove with (p := p) by auto.
    apply step_click_insert; assumption. }
  rewrite E3. split; [reflexivity|].
  rewrite step_settled. simpl.
  rewrite map_app, update_absent by now apply find_none_entries.
  simpl. rewrite hasId_pending.
  split; [reflexivity|].
  unfold renderAnswer. rewrite find_appended with (b := resolveAnswer _ _).
  - reflexivity.
  - assumption.
  - apply hasId_pending.
Qed.

Lemma late_result_fills_new_request_witness :
  renderAnswer
    (aiAnswers (run [Clicked saveMore; Clicked saveMore; Clicked saveMore;
                     AnswerSettled saveMore (Normal "answer to the first call")]
                    initial))
    saveMore
  = Some (AnswerText "answer to the first call").
Proof.
  destruct (@late_result_fills_new_request saveMore
              (Normal "answer to the first call") initial eq_refl eq_refl)
    as [_ [_ H]].
  exact H.
Defined.

(** ** What the user sees of one request *)

(** X10.  For an insight with an action label and no entry: right after the
    click its card shows the progress indicator; once the generation call
    has settled it shows the returned text, or the apology if the call
    failed, and no progress indicator; clicks on other insights and results
    for them in between do not change this. *)
Theorem request_shows_spinner_then_text insight generated others p :
  truthy (action insight) = true ->
  find (hasId (id insight)) (aiAnswers p) = None ->
  noneOf (touches (id insight)) others = true ->
  renderAnswer (aiAnswers p) insight = None /\
  renderAnswer (aiAnswers (run (Clicked insight :: others) p)) insight
  = Some Spinner /\
  renderAnswer
    (aiAnswers (run (Clicked insight :: others
                     ++ [AnswerSettled insight generated]) p)) insight
  = Some (AnswerText (shownText generated)).
Proof.
  intros Ht Hf Ho.
  assert (E1 : entries (id insight) (aiAnswers (step (Clicked insight) p))
               = [pendingAnswer (id insight)]).
  { rewrite step_click_insert by assumption. simpl.
    rewrite entries_app. apply find_none_entries in Hf. rewrite Hf.
    unfold entries. simpl. now rewrite hasId_pending. }
  assert (E2 : entries (id insight)
                 (aiAnswers (run others (step (Clicked insight) p)))
               = [pendingAnswer (id insight)]).
  { rewrite <- E1. clear E1. generalize (step (Clicked insight) p).
    induction others as [|e es IH]; intros q; [reflexivity|].
    simpl run. apply noneOf_cons in Ho. destruct Ho as [He Hes].
    rewrite IH by assumption. now apply entries_untouched. }
  split; [unfold renderAnswer; now rewrite Hf|].
  split.
  - simpl run. unfold renderAnswer. rewrite find_first_entry, E2. reflexivity.
  - simpl run. rewrite run_app. simpl run. rewrite step_settled. simpl aiAnswers.
    unfold renderAnswer. rewrite find_first_entry, entries_update, E2.
    simpl. rewrite hasId_pending. reflexivity.
Qed.

Lemma request_shows_spinner_then_text_witness :
  renderAnswer
    (aiAnswers (run [Clicked saveMore; Clicked fallbackInsight;
                     AnswerSettled saveMore (Throw (Rejected "quota"))] initial))
    saveMore
  = Some (AnswerText apology).
Proof.
  destruct (@request_shows_spinner_then_text saveMore (Throw (Rejected "quota"))
              [Clicked fallbackInsight] initial eq_refl eq_refl eq_refl)
    as [_ [_ H]].
  exact H.
Defined.

(** ** The button *)

Lemma remove_shrinks i l a :
  find (hasId i) l = Some a ->
  length (filter (fun a => negb (hasId i a)) l) < length l.
Proof.
  induction l as [|b l IH]; simpl; [discriminate|].
  destruct (hasId i b) eqn:E; simpl.
  - intros _. pose proof (filter_length_le (fun a => negb (hasId i a)) l). lia.
  - intros H. apply IH in H. lia.
Qed.

(** X11.  The button of a card is rendered exactly when the insight has a
    non-empty action label, and its text is that label followed by a space
    and an arrow.  A click on a rendered button appends exactly one entry
    when the render its handler belongs to shows no entry for the insight,
    and otherwise removes every entry of the insight's id, at least one if
    the answers hold one.  So when that render agrees with the answers on
    whether the insight has an entry, the click never does nothing: the
    list of answers changes. *)
Theorem rendered_button_click_effect insight shown p :
  (renderButton insight = None <-> truthy (action insight) = false) /\
  (forall label, renderButton insight = Some label ->
     exists a, action insight = Some a /\ a <> "" /\ label = a ++ " →") /\
  (renderButton insight <> None ->
   let answers' := aiAnswers (step (ClickedOn shown insight) p) in
   (find (hasId (id insight)) shown = None ->
    answers' = (aiAnswers p ++ [pendingAnswer (id insight)])%list) /\
   (find (hasId (id insight)) shown <> None ->
    answers' = filter (fun a => negb (insightId a =? id insight)) (aiAnswers p) /\
    entries (id insight) answers' = [] /\
    (find (hasId (id insight)) (aiAnswers p) <> None ->
     length answers' < length (aiAnswers p))) /\
   ((find (hasId (id insight)) shown = None <->
     find (hasId (id insight)) (aiAnswers p) = None) ->
    answers' <> aiAnswers p)).
Proof.
  unfold renderButton. destruct (truthy (action insight)) eqn:Ht.
  - split; [split; discriminate|]. split.
    + intros label [= <-]. destruct (truthy_some _ Ht) as [a [Ha Hne]].
      exists a. rewrite Ha. auto.
    + intros _. cbv zeta.
      assert (Hins : find (hasId (id insight)) shown = None ->
                aiAnswers (step (ClickedOn shown insight) p)
                = (aiAnswers p ++ [pendingAnswer (id insight)])%list).
      { intros Hf. now rewrite step_on_insert. }
      assert (Hrem : find (hasId (id insight)) shown <> None ->
                aiAnswers (step (ClickedOn shown insight) p)
                = filter (fun a => negb (hasId (id insight) a)) (aiAnswers p)).
      { intros Hf. destruct (find (hasId (id insight)) shown) as [a|] eqn:E;
          [|contradiction].
        now rewrite step_on_remove with (a := a). }
      assert (Hless : find (hasId (id insight)) (aiAnswers p) <> None ->
                length (filter (fun a => negb (hasId (id insight) a)) (aiAnswers p))
                < length (aiAnswers p)).
      { intros Hf.
        destruct (find (hasId (id insight)) (aiAnswers p)) as [a|] eqn:E;
          [|contradiction].
        now apply remove_shrinks with (a := a). }
      split; [exact Hins|]. split.
      * intros Hf. rewrite (Hrem Hf).
        split; [reflexivity|]. split; [apply entries_remove|exact Hless].
      * intros [Hto Hfrom] Heq. apply (f_equal (@length _)) in Heq.
        destruct (find (hasId (id insight)) shown) as [a|] eqn:E.
        -- assert (Hs : Some a <> None) by discriminate.
           rewrite (Hrem Hs) in Heq.
           assert (Hp : find (hasId (id insight)) (aiAnswers p) <> None).
           { intros Hn. specialize (Hfrom Hn). discriminate. }
           specialize (Hless Hp). lia.
        -- rewrite (Hins eq_refl), length_app in Heq. simpl in Heq. lia.
  - split; [split; reflexivity|]. split; [discriminate|].
    intros H. contradiction.
Qed.

Lemma rendered_button_click_effect_witness :
  renderButton saveMore = Some "See how →" /\
  aiAnswers (step (ClickedOn [] saveMore) initial) = [pendingAnswer "1"] /\
  aiAnswers (step (ClickedOn [] saveMore) initial) <> aiAnswers initial.
Proof.
  split; [reflexivity|].
  destruct (rendered_button_click_effect saveMore [] initial) as [_ [_ H]].
  destruct (H ltac:(discriminate)) as [H1 [_ H3]].
  split; [apply H1; reflexivity|].
  apply H3. split; reflexivity.
Defined.

(** ** Where entries come from *)

Lemma entry_origin_step e p a :
  In a (aiAnswers (step e p)) ->
  In (insightId a) (map insightId (aiAnswers p)) \/
  exists insight,
    (e = Clicked insight \/ exists shown, e = ClickedOn shown insight) /\
    truthy (action insight) = true /\
    id insight = insightId a /\ a = pendingAnswer (id insight).
Proof.
  destruct e as [| fetched now | insight | insight generated | shown insight].
  - rewrite answers_load_started. intros H. left. now apply in_map.
  - rewrite answers_load_settled. intros H. left. now apply in_map.
  - destruct (truthy (action insight)) eqn:Ht.
    + destruct (find (hasId (id insight)) (aiAnswers p)) as [b|] eqn:Hf.
      * rewrite step_click_remove with (a := b) by assumption. simpl.
        intros H. apply filter_In in H. left. now apply in_map.
      * rewrite step_click_insert by assumption. simpl.
        intros H. apply in_app_or in H. destruct H as [H|[<-|[]]].
        -- left. now apply in_map.
        -- right. exists insight. auto.
    + rewrite step_click_falsy by assumption. intros H. left. now apply in_map.
  - rewrite step_settled. simpl. intros H. left.
    rewrite <- (update_keeps_ids (id insight)
                  (match generated with Normal t => t | Throw _ => apology end)).
    now apply in_map.
  - destruct (answers_clicked_on shown insight p) as [E | [E | [_ [Ht E]]]];
      rewrite E; intros H.
    + left. now apply in_map.
    + apply filter_In in H. left. now apply in_map.
    + apply in_app_or in H. destruct H as [H|[<-|[]]].
      * left. now apply in_map.
      * right. exists insight. split; [right; now exists shown|auto].
Qed.

(** X12.  Every entry held by a panel that started from the mount was put
    there by a click: its id is the id of an insight that was clicked in the
    history, through the handler of whatever render, and that has a
    non-empty action label.  Loads and generation results never create an
    entry. *)
Theorem entries_come_from_clicks es a :
  In a (aiAnswers (run es initial)) ->
  exists insight,
    (In (Clicked insight) es \/ exists shown, In (ClickedOn shown insight) es) /\
    truthy (action insight) = true /\
    id insight = insightId a.
Proof.
  assert (G : forall es p a,
             In a (aiAnswers (run es p)) ->
             In (insightId a) (map insightId (aiAnswers p)) \/
             exists insight,
               (In (Clicked insight) es \/
                exists shown, In (ClickedOn shown insight) es) /\
               truthy (action insight) = true /\
               id insight = insightId a).
  { clear. induction es as [|e es IH]; intros p a H.
    - left. now apply in_map.
    - simpl run in H. apply IH in H.
      destruct H as [H|[insight [Hin Hr]]].
      + apply in_map_iff in H. destruct H as [b [Hb Hin]].
        apply entry_origin_step in Hin. rewrite Hb in Hin.
        destruct Hin as [Hin|[insight [He [Ht [Hid _]]]]].
        * now left.
        * right. exists insight. split; [|split; congruence].
          destruct He as [->|[shown ->]].
          -- left. now left.
          -- right. exists shown. now left.
      + right. exists insight. split; [|assumption].
        destruct Hin as [Hin|[shown Hin]].
        * left. now right.
        * right. exists shown. now right. }
  intros H. apply G in H. destruct H as [[]|H]. exact H.
Qed.

Lemma entries_come_from_clicks_witness :
  exists insight,
    (In (Clicked insight)
        [LoadStarted; Clicked saveMore; AnswerSettled saveMore (Normal "ok")] \/
     exists shown,
       In (ClickedOn shown insight)
          [LoadStarted; Clicked saveMore; AnswerSettled saveMore (Normal "ok")]) /\
    truthy (action insight) = true /\ id insight = "1".
Proof.
  apply (@entries_come_from_clicks
           [LoadStarted; Clicked saveMore; AnswerSettled saveMore (Normal "ok")]
           {| insightId := "1"; answer := "ok"; isLoading := false |}).
  left. reflexivity.
Defined.

(** ** Presentation by category *)

(** X13.  The style and the icon of a card fall back to the default (the
    gray style, the information icon) for exactly the strings other than
    "warning", "success" and "tip": the category "info" has no case of its
    own, and an unknown or differently spelled category is presented like
    "info" instead of failing.  The two functions agree on which categories
    are special. *)
Theorem presentation_defaults t :
  (getTypeStyles t = defaultStyles <->
   t <> "warning" /\ t <> "success" /\ t <> "tip") /\
  (getTypeIcon t = "ℹ️" <->
   t <> "warning" /\ t <> "success" /\ t <> "tip") /\
  (getTypeStyles t = defaultStyles <-> getTypeIcon t = "ℹ️") /\
  getTypeStyles (typeName info) = defaultStyles.
Proof.
  unfold getTypeStyles, getTypeIcon.
  destruct (String.eqb_spec t "warning") as [->|H1];
    [simpl; repeat split; try discriminate; intros; tauto|].
  destruct (String.eqb_spec t "success") as [->|H2];
    [simpl; repeat split; try discriminate; intros; tauto|].
  destruct (String.eqb_spec t "tip") as [->|H3];
    [simpl; repeat split; try discriminate; intros; tauto|].
  repeat split; auto.
Qed.

(** X14.  The four categories of the data model are told apart on screen:
    two categories with the same style, or with the same icon, are the same
    category. *)
Theorem categories_are_distinguishable t1 t2 :
  (getTypeStyles (typeName t1) = getTypeStyles (typeName t2) -> t1 = t2) /\
  (getTypeIcon (typeName t1) = getTypeIcon (typeName t2) -> t1 = t2).
Proof.
  split; destruct t1, t2; simpl; intros H; try reflexivity; discriminate H.
Qed.

Lemma categories_are_distinguishable_witness :
  getTypeIcon (typeName tip) = getTypeIcon "tip" /\ tip = tip.
Proof.
  split; [reflexivity|].
  destruct (categories_are_distinguishable tip tip) as [H _].
  apply H. reflexivity.
Defined.

Lemma presentation_defaults_witness :
  getTypeStyles "Warning" = defaultStyles /\ getTypeIcon "Warning" = "ℹ️".
Proof.
  destruct (presentation_defaults "Warning") as [[_ H1] [[_ H2] _]].
  split; [apply H1|apply H2]; repeat split; discriminate.
Defined.

(** * Further properties of user resolution *)

Section CheckUserMore.

Import CheckUser.

Variables (Db DbUser : Type).
Variable findUnique : string -> M Db (option DbUser).
Variable create : UserCreateInput -> M Db DbUser.

(** The session after one look-up. *)
Let looked (s : Clerk.Session) : Clerk.Session :=
  {| Clerk.signedIn := Clerk.signedIn s; Clerk.lookups := S (Clerk.lookups s) |}.

(** X15.  [checkUser] writes to the store only for a signed-in user whose
    look-up ended normally without a row.  With nobody signed in it returns
    [null] and does not touch the store at all; when the look-up finds a row
    it returns that row and the store is as the look-up left it; when the
    look-up throws, the error is the outcome and the store is as the look-up
    left it.  In none of these cases does the outcome depend on [create]. *)
Theorem checkUser_creates_only_when_missing w :
  (Clerk.signedIn (session w) = None ->
   checkUser findUnique create w
   = (Normal None, {| session := looked (session w); db := db w |})) /\
  (forall user found d,
     Clerk.signedIn (session w) = Some user ->
     findUnique (Clerk.id user) (db w) = (Normal (Some found), d) ->
     checkUser findUnique create w
     = (Normal (Some found), {| session := looked (session w); db := d |})) /\
  (forall user e d,
     Clerk.signedIn (session w) = Some user ->
     findUnique (Clerk.id user) (db w) = (Throw e, d) ->
     checkUser findUnique create w
     = (Throw e, {| session := looked (session w); db := d |})).
Proof.
  unfold checkUser, bind, onSession, onDb, Clerk.currentUser, looked.
  split; [|split].
  - intros Hu. simpl. rewrite Hu. reflexivity.
  - intros user found d Hu Hf. simpl. rewrite Hu. simpl. rewrite Hf. reflexivity.
  - intros user e d Hu Hf. simpl. rewrite Hu. simpl. rewrite Hf. reflexivity.
Qed.

(** X16.  Whatever happens afterwards (nobody signed in, a row found, a row
    created, an error from the look-up, from the missing email address or
    from the creation), one call of [checkUser] asks the identity provider
    for the current user exactly once and leaves the signed-in user as it
    was. *)
Theorem checkUser_looks_up_once w :
  session (snd (checkUser findUnique create w)) = looked (session w).
Proof.
  unfold checkUser, bind, onSession, onDb, Clerk.currentUser, looked, firstEmail.
  simpl. destruct (Clerk.signedIn (session w)) as [user|]; [|reflexivity].
  simpl. destruct (findUnique (Clerk.id user) (db w)) as [[[found|]|e] d];
    try reflexivity.
  simpl. destruct (Clerk.emailAddresses user) as [|first rest]; [reflexivity|].
  simpl. destruct (create _ d) as [[newUser|e] d']; reflexivity.
Qed.

(** X17.  Creation happens once per user on a store that finds what was
    created.  If a first call created the row [newUser], and a look-up by
    the user's id on the resulting store finds that row, then a second call
    for the same user returns [newUser] and does not call [create] again:
    the store is as the second look-up left it. *)
Theorem checkUser_second_call_finds_row w user first rest newUser d1 d2 d3 :
  Clerk.signedIn (session w) = Some user ->
  Clerk.emailAddresses user = first :: rest ->
  findUnique (Clerk.id user) (db w) = (Normal None, d1) ->
  create {| clerkUserId := Clerk.id user;
            name := nullable_to_string (Clerk.firstName user) ++ " "
                    ++ nullable_to_string (Clerk.lastName user);
            imageUrl := Clerk.imageUrl user;
            email := Clerk.emailAddress first |} d1 = (Normal newUser, d2) ->
  findUnique (Clerk.id user) d2 = (Normal (Some newUser), d3) ->
  let once := checkUser findUnique create w in
  let twice := checkUser findUnique create (snd once) in
  once = (Normal (Some newUser), {| session := looked (session w); db := d2 |}) /\
  twice = (Normal (Some newUser),
           {| session := looked (looked (session w)); db := d3 |}).
Proof.
  intros Hu He Hf Hc Hf2. cbv zeta.
  assert (E : checkUser findUnique create w
              = (Normal (Some newUser),
                 {| session := looked (session w); db := d2 |})).
  { unfold checkUser, bind, onSession, onDb, Clerk.currentUser, looked, firstEmail.
    cbn -[append]. rewrite Hu. cbn -[append]. rewrite Hf. cbn -[append].
    rewrite He. cbn -[append]. rewrite Hc. reflexivity. }
  split; [exact E|]. rewrite E.
  unfold checkUser, bind, onSession, onDb, Clerk.currentUser, looked.
  simpl. rewrite Hu. simpl. rewrite Hf2. reflexivity.
Qed.

End CheckUserMore.

Lemma checkUser_creates_only_when_missing_witness :
  let w := {| CheckUser.session := {| Clerk.signedIn := None; Clerk.lookups := 0 |};
              CheckUser.db := ([] : CheckUser.Rows) |} in
  fst (CheckUser.checkUser CheckUser.rowsFindUnique CheckUser.rowsCreate w)
  = Normal None.
Proof.
  cbv zeta.
  match goal with
  | |- context [CheckUser.checkUser _ _ ?w] =>
      destruct (@checkUser_creates_only_when_missing _ _
                  CheckUser.rowsFindUnique CheckUser.rowsCreate w) as [H _]
  end.
  rewrite H by reflexivity. reflexivity.
Defined.

Lemma checkUser_second_call_finds_row_witness :
  let user := {| Clerk.id := "user_1"; Clerk.firstName := Some "Ada";
                 Clerk.lastName := None; Clerk.imageUrl := "a.png";
                 Clerk.emailAddresses := [Clerk.mkEmail "ada@example.org"] |} in
  let w := {| CheckUser.session := {| Clerk.signedIn := Some user; Clerk.lookups := 0 |};
              CheckUser.db := ([] : CheckUser.Rows) |} in
  let once := CheckUser.checkUser CheckUser.rowsFindUnique CheckUser.rowsCreate w in
  let twice :=
    CheckUser.checkUser CheckUser.rowsFindUnique CheckUser.rowsCreate (snd once) in
  fst twice = fst once /\
  CheckUser.db (snd twice)
  = [{| CheckUser.clerkUserId := "user_1"; CheckUser.name := "Ada null";
        CheckUser.imageUrl := "a.png"; CheckUser.email := "ada@example.org" |}].
Proof.
  cbv zeta.
  match goal with
  | |- context [CheckUser.checkUser _ _ (snd (CheckUser.checkUser _ _ ?w))] =>
      destruct (@checkUser_second_call_finds_row _ _
                  CheckUser.rowsFindUnique CheckUser.rowsCreate w
                  _ _ _ _ _ _ _ eq_refl eq_refl eq_refl eq_refl eq_refl)
        as [H1 H2]
  end.
  rewrite H2, H1. split; reflexivity.
Defined.

(** * Entries without a card *)

Lemma find_filter_kept i (keep : AIAnswer -> bool) l :
  (forall a, hasId i a = true -> keep a = true) ->
  find (hasId i) (filter keep l) = find (hasId i) l.
Proof.
  intros H. induction l as [|a l IH]; simpl; [reflexivity|].
  destruct (hasId i a) eqn:E.
  - rewrite (H a E). simpl. now rewrite E.
  - destruct (keep a); simpl; [now rewrite E|exact IH].
Qed.

(** X18.  An entry is visible only through a card of its insight id.  The
    rendered panel is the same with and without the entries whose id is the
    id of no insight in the current list: after a reload that no longer
    returns an insight, its answer stays in the state but nothing of it is
    rendered. *)
Theorem entries_without_card_are_invisible p :
  render p
  = render (withAnswers p
              (filter (fun a => existsb (fun insight => id insight =? insightId a)
                                        (insights p))
                      (aiAnswers p))).
Proof.
  unfold render. simpl. f_equal. destruct (loading p); [reflexivity|].
  f_equal. apply map_ext_in. intros insight Hin.
  unfold renderCard, renderAnswer. rewrite find_filter_kept; [reflexivity|].
  intros a Ha. apply existsb_exists. exists insight. split; [assumption|].
  unfold hasId in Ha. now rewrite String.eqb_sym.
Qed.

(** * Uniqueness under up-to-date clicks *)

(** X19.  Starting from answers with at most one entry per insight id, the
    property is kept along every history in which each click reaches the
    handler of a render that shows an entry for the clicked insight
    whenever the answers hold one; loads and generation results need no
    condition.  On such a panel the entry that rendering finds for an id is
    the only entry of that id.  A history whose clicks are all clicks on the
    render of the current answers meets the condition. *)
Theorem uniqueness_kept_by_up_to_date_clicks es p :
  AtMostOne (aiAnswers p) ->
  upToDateRun es p ->
  AtMostOne (aiAnswers (run es p)) /\
  (forall i a,
     find (hasId i) (aiAnswers (run es p)) = Some a ->
     entries i (aiAnswers (run es p)) = [a]) /\
  (forall es' q,
     (forall shown insight, ~ In (ClickedOn shown insight) es') ->
     upToDateRun es' q).
Proof.
  intros H Hup.
  assert (Hone : AtMostOne (aiAnswers (run es p))) by now apply AtMostOne_run.
  split; [exact Hone|]. split.
  - intros i a Hf. specialize (Hone i).
    rewrite find_first_entry in Hf.
    destruct (entries i (aiAnswers (run es p))) as [|b [|c l]];
      simpl in *; [discriminate|congruence|lia].
  - clear. induction es' as [|e es IH]; intros q Hno; [exact I|].
    split.
    + destruct e; simpl; auto. exfalso. apply (Hno shown insight). now left.
    + apply IH. intros shown insight Hin. apply (Hno shown insight). now right.
Qed.

Lemma uniqueness_kept_by_up_to_date_clicks_witness :
  AtMostOne
    (aiAnswers (run [Clicked saveMore; ClickedOn [pendingAnswer "1"] saveMore;
                     ClickedOn [] saveMore; AnswerSettled saveMore (Normal "ok")]
                    initial)).
Proof.
  assert (H0 : AtMostOne (aiAnswers initial)) by (intros i; simpl; lia).
  refine (proj1 (@uniqueness_kept_by_up_to_date_clicks
                   [Clicked saveMore; ClickedOn [pendingAnswer "1"] saveMore;
                    ClickedOn [] saveMore; AnswerSettled saveMore (Normal "ok")]
                   initial H0 _)).
  simpl. repeat split; auto; discriminate.
Defined.
